(** * vintedpics: a shallow embedding of the panels' state handling

    The repository is a browser front-end: a chat panel, a background
    replacement panel, a video panel and a live voice assistant, each a
    React component with local state that calls a hosted inference API.

    Every handler is embedded as a function on the component's state.
    What the browser and the remote service answer (clock readings, the
    response of a request, the result of a file read, the audio context's
    current time) enters a handler as an argument.

    Conventions.
    - A JS string is a [string]; a character is one of the 256 code
      points of Latin-1.  [undefined] and [null] are [None].
    - Times of the Web Audio API (seconds, JS numbers) are rationals [Q]:
      additions and comparisons are exact.
    - Objects that are shared between a ref and a closure (sessions,
      streams, audio nodes) live in stores indexed by their allocation
      order; a ref holds an index.
    - What an awaited call answers is an argument of the handler.  Where
      the handler is written in two parts, the cut is at the [await]; a
      loop around an [await] takes fuel.  The helpers of utils/audioUtils
      are not part of the sources: [decodeAudioData] enters [onmessage]
      through the buffer it resolves with, and the two parts of the
      handler around that [await] run back to back. *)

From Stdlib Require Import ZArith QArith Qminmax Lia Lqa.
From Stdlib Require Import Strings.String Strings.Ascii Numbers.DecimalString.
From stdpp Require Import base option list gmap strings.

Local Open Scope Z_scope.
Local Open Scope string_scope.
Local Open Scope list_scope.

(* ===================================================================== *)
(** * JavaScript values used by all panels                                *)
(* ===================================================================== *)

Module Js.

(** Truthiness of an optional string: [undefined], [null] and [""] are falsy. *)
Definition truthy (o : option string) : bool :=
  match o with
  | Some (String _ _) => true
  | _ => false
  end.

(** [String.prototype.split] with a one-character separator. *)
Fixpoint split (sep : ascii) (s : string) : list string :=
  match s with
  | EmptyString => [EmptyString]
  | String c rest =>
      if Ascii.eqb c sep then EmptyString :: split sep rest
      else match split sep rest with
           | [] => [String c EmptyString]
           | field :: fields => String c field :: fields
           end
  end.

(** White space and line terminators of ECMAScript below code point 256:
    TAB, LF, VT, FF, CR, SP and NBSP. *)
Definition is_space (c : ascii) : bool :=
  let n := nat_of_ascii c in
  ((9 <=? n)%nat && (n <=? 13)%nat) || (n =? 32)%nat || (n =? 160)%nat.

Fixpoint trimStart (s : string) : string :=
  match s with
  | EmptyString => EmptyString
  | String c rest => if is_space c then trimStart rest else s
  end.

Fixpoint trimEnd (s : string) : string :=
  match s with
  | EmptyString => EmptyString
  | String c rest =>
      match trimEnd rest with
      | EmptyString => if is_space c then EmptyString else String c EmptyString
      | kept => String c kept
      end
  end.

(** [String.prototype.trim]. *)
Definition trim (s : string) : string := trimEnd (trimStart s).

(** [Number.prototype.toString] on an integer. *)
Definition toString (n : Z) : string := NilEmpty.string_of_int (Z.to_int n).

(** A template literal hole filled with a possibly undefined string. *)
Definition interpolate (o : option string) : string :=
  match o with
  | Some s => s
  | None => "undefined"
  end.

(** A promise that has run to its end. *)
Inductive settled (A E : Type) : Type :=
| Pending
| Resolved (value : A)
| Rejected (reason : E).
Arguments Pending {A E}.
Arguments Resolved {A E} value.
Arguments Rejected {A E} reason.

(** [resolve] and [reject] only act on a pending promise. *)
Definition resolve {A E} (v : A) (p : settled A E) : settled A E :=
  match p with
  | Pending => Resolved v
  | _ => p
  end.

Definition reject {A E} (e : E) (p : settled A E) : settled A E :=
  match p with
  | Pending => Rejected e
  | _ => p
  end.

End Js.

(* ===================================================================== *)
(** * src/types.ts                                                        *)
(* ===================================================================== *)

Module Types.

Inductive Role : Type := user | model.

(** [interface ChatMessage]; [groundingMetadata] is an opaque JSON text. *)
Record ChatMessage : Type := {
  id : string;
  role : Role;
  text : string;
  images : option (list string);
  timestamp : Z;
  groundingMetadata : option string
}.

Inductive QualityOption : Type := Q1K | Q2K | Q4K.

(** [reader.result] is a string, an [ArrayBuffer] or [null]. *)
Inductive ReaderResult : Type :=
| ResultString (s : string)
| ResultArrayBuffer (bytes : list Z)
| ResultNull.

(** What the [FileReader] does after [readAsDataURL]: it loads, or it
    fails with an error event; [loadend] follows in both cases. *)
Inductive ReadOutcome : Type :=
| Loaded (result : ReaderResult)
| Failed (errorEvent : string).

Inductive ReaderEvent : Type :=
| ErrorEvent (ev : string)
| LoadEnd (result : ReaderResult).

Definition reader_events (o : ReadOutcome) : list ReaderEvent :=
  match o with
  | Loaded r => [LoadEnd r]
  | Failed ev => [ErrorEvent ev; LoadEnd ResultNull]
  end.

Definition conversion_error : string := "Failed to convert blob to base64".

(** [reader.onloadend]. *)
Definition onloadend (result : ReaderResult)
    (p : Js.settled (option string) string) : Js.settled (option string) string :=
  match result with
  | ResultString s =>
      let base64 := nth_error (Js.split "," s) 1 in
      Js.resolve base64 p
  | _ => Js.reject conversion_error p
  end.

Definition dispatch (ev : ReaderEvent)
    (p : Js.settled (option string) string) : Js.settled (option string) string :=
  match ev with
  | ErrorEvent e => Js.reject e p
  | LoadEnd r => onloadend r p
  end.

(** [blobToBase64]: the promise after the reader has finished with the blob. *)
Definition blobToBase64 (o : ReadOutcome) : Js.settled (option string) string :=
  fold_left (fun p ev => dispatch ev p) (reader_events o) Js.Pending.

(** The claim's wording, for comparison: the substring after the first comma. *)
Fixpoint after_first_comma (s : string) : option string :=
  match s with
  | EmptyString => None
  | String c rest => if Ascii.eqb c "," then Some rest else after_first_comma rest
  end.

(** The text before the first comma (all of it when there is none). *)
Fixpoint before_first_comma (s : string) : string :=
  match s with
  | EmptyString => EmptyString
  | String c rest =>
      if Ascii.eqb c "," then EmptyString else String c (before_first_comma rest)
  end.

Fixpoint has_comma (s : string) : bool :=
  match s with
  | EmptyString => false
  | String c rest => Ascii.eqb c "," || has_comma rest
  end.


End Types.

(* ===================================================================== *)
(** * src/unnamed/part_000: the chat panel (SmartChat)                    *)
(* ===================================================================== *)

Module SmartChat.
Import Types.

Inductive Mode : Type := fast | think | search | maps.

(** The component's [useState] cells. *)
Record State : Type := {
  messages : list ChatMessage;
  input : string;
  isLoading : bool;
  mode : Mode;
  uploadedImage : option string
}.

(** The request handed to [ai.models.generateContent]. *)
Inductive Tool : Type := googleSearch | googleMaps.

Record Request : Type := {
  req_model : string;
  req_image : option string;
  req_text : string;
  req_tools : option (list Tool);
  req_latLng : option (Q * Q);
  req_thinkingBudget : option Z
}.

(** What the service answers: [response.text] and the grounding metadata
    of the first candidate, or an exception with its [message]. *)
Record Response : Type := {
  response_text : option string;
  response_grounding : option string
}.

Inductive Outcome : Type :=
| Returned (r : Response)
| Threw (message : option string).

(** The four readings of [Date.now()] of one call, in program order, and
    the outcome of the request. *)
Record Env : Type := {
  now_user_id : Z;
  now_user_timestamp : Z;
  outcome : Outcome;
  now_reply_id : Z;
  now_reply_timestamp : Z
}.

Definition fallback_text : string := "I processed that, but have no text response.".

(** [(!input.trim() && !uploadedImage) || isLoading] *)
Definition guard (s : State) : bool :=
  (negb (Js.truthy (Some (Js.trim (input s)))) && negb (Js.truthy (uploadedImage s)))
  || isLoading s.

Definition userMsg (e : Env) (s : State) : ChatMessage :=
  {| id := Js.toString (now_user_id e);
     role := user;
     text := input s;
     images := if Js.truthy (uploadedImage s)
               then option_map (fun img => [img]) (uploadedImage s)
               else None;
     timestamp := now_user_timestamp e;
     groundingMetadata := None |}.

(** The [switch (mode)] and the construction of [parts]. *)
Definition request (m : Mode) (msg : ChatMessage) : Request :=
  let model0 :=
    match m with
    | fast => "gemini-2.5-flash-lite-latest"
    | think => "gemini-3-pro-preview"
    | search => "gemini-3-flash-preview"
    | maps => "gemini-2.5-flash"
    end in
  let tools :=
    match m with
    | search => [googleSearch]
    | maps => [googleMaps]
    | _ => []
    end in
  {| req_model := match images msg, m with
                  | Some _, fast => "gemini-3-pro-preview"
                  | _, _ => model0
                  end;
     req_image := match images msg with
                  | Some imgs => nth_error imgs 0
                  | None => None
                  end;
     req_text := text msg;
     req_tools := match tools with [] => None | _ => Some tools end;
     req_latLng := match m with
                   | maps => Some (40.7128%Q, (-74.0060)%Q)
                   | _ => None
                   end;
     req_thinkingBudget := match m with think => Some 32768 | _ => None end |}.

(** The statements before [try]: four state updates. *)
Definition sendMessage_begin (e : Env) (s : State) : State :=
  {| messages := messages s ++ [userMsg e s];
     input := "";
     isLoading := true;
     mode := mode s;
     uploadedImage := None |}.

Definition botMsg (e : Env) (r : Response) : ChatMessage :=
  {| id := Js.toString (now_reply_id e + 1);
     role := model;
     text := if Js.truthy (response_text r)
             then Js.interpolate (response_text r)
             else fallback_text;
     images := None;
     timestamp := now_reply_timestamp e;
     groundingMetadata := response_grounding r |}.

Definition errorMsg (e : Env) (message : option string) : ChatMessage :=
  {| id := Js.toString (now_reply_id e);
     role := model;
     text := "Error: " +:+ Js.interpolate message;
     images := None;
     timestamp := now_reply_timestamp e;
     groundingMetadata := None |}.

(** What runs once the request has come back: the rest of [try], or
    [catch], and then [finally]. *)
Definition sendMessage_end (e : Env) (s : State) : State :=
  let reply :=
    match outcome e with
    | Returned r => botMsg e r
    | Threw message => errorMsg e message
    end in
  {| messages := messages s ++ [reply];
     input := input s;
     isLoading := false;
     mode := mode s;
     uploadedImage := uploadedImage s |}.

Definition sendMessage (e : Env) (s : State) : State :=
  if guard s then s else sendMessage_end e (sendMessage_begin e s).

(** ** The other handlers of the panel *)

Definition setInput (v : string) (s : State) : State :=
  {| messages := messages s; input := v; isLoading := isLoading s;
     mode := mode s; uploadedImage := uploadedImage s |}.

Definition setMode (m : Mode) (s : State) : State :=
  {| messages := messages s; input := input s; isLoading := isLoading s;
     mode := m; uploadedImage := uploadedImage s |}.

Definition setUploadedImage (o : option string) (s : State) : State :=
  {| messages := messages s; input := input s; isLoading := isLoading s;
     mode := mode s; uploadedImage := o |}.

(** [handleImageUpload].  [file] is [e.target.files?.[0]], given by what
    the reader does with it; a rejected [blobToBase64] ends the handler
    before the state update. *)
Definition handleImageUpload (file : option ReadOutcome) (s : State) : State :=
  match file with
  | None => s
  | Some o =>
      match blobToBase64 o with
      | Js.Resolved base64 => setUploadedImage base64 s
      | _ => s
      end
  end.

Definition initial : State :=
  {| messages := []; input := ""; isLoading := false; mode := fast;
     uploadedImage := None |}.

(** ** The panel as a transition system *)

(** The panel with the requests that have not come back yet, oldest
    first.  A request is known by the [Env] of its call. *)
Record Panel : Type := {
  view : State;
  inflight : list Env
}.

(** The text field, the file input, the "x" on the preview, a mode
    button, a call of [sendMessage] (the send button or the Enter key),
    and the return of the k-th request in flight. *)
Inductive Event : Type :=
| Typed (v : string)
| Picked (file : option ReadOutcome)
| Unpicked
| ModeChosen (m : Mode)
| Send (e : Env)
| Answer (k : nat).

Definition step (ev : Event) (p : Panel) : option Panel :=
  match ev with
  | Typed v => Some {| view := setInput v (view p); inflight := inflight p |}
  | Picked file =>
      Some {| view := handleImageUpload file (view p); inflight := inflight p |}
  | Unpicked =>
      if Js.truthy (uploadedImage (view p))
      then Some {| view := setUploadedImage None (view p); inflight := inflight p |}
      else None
  | ModeChosen m => Some {| view := setMode m (view p); inflight := inflight p |}
  | Send e =>
      if guard (view p) then Some p
      else Some {| view := sendMessage_begin e (view p);
                   inflight := inflight p ++ [e] |}
  | Answer k =>
      match inflight p !! k with
      | Some e => Some {| view := sendMessage_end e (view p);
                          inflight := delete k (inflight p) |}
      | None => None
      end
  end.

Fixpoint run (trace : list Event) (p : Panel) : option Panel :=
  match trace with
  | [] => Some p
  | ev :: rest =>
      match step ev p with
      | Some p' => run rest p'
      | None => None
      end
  end.

Definition start : Panel := {| view := initial; inflight := [] |}.

(** The roles of a transcript that starts with [next] and alternates. *)
Fixpoint alternates (next : Role) (ms : list ChatMessage) : bool :=
  match ms with
  | [] => true
  | m :: rest =>
      match next, role m with
      | user, user => alternates model rest
      | model, model => alternates user rest
      | _, _ => false
      end
  end.

Definition other (r : Role) : Role :=
  match r with
  | user => model
  | model => user
  end.

(** What every state of a run from [start] satisfies: the transcript
    alternates, it is even exactly while no request is under way, and
    one request is under way exactly while [isLoading] is true. *)
Definition chat_invariant (p : Panel) : Prop :=
  alternates user (messages (view p)) = true
  /\ Nat.even (length (messages (view p))) = negb (isLoading (view p))
  /\ length (inflight p) = (if isLoading (view p) then 1 else 0)%nat.

End SmartChat.

(* ===================================================================== *)
(** * src/components/VintedStudio.tsx: background replacement             *)
(* ===================================================================== *)

Module VintedStudio.
Import Types.

Record State : Type := {
  originalImage : option string;
  generatedImage : option string;
  prompt : string;
  loading : bool;
  quality : QualityOption
}.

Record ImageConfig : Type := { imageSize : QualityOption }.

Record Request : Type := {
  model : string;
  inlineData_data : string;
  inlineData_mimeType : string;
  text : string;
  imageConfig : option ImageConfig
}.

(** A part of the first candidate: [part.inlineData] and its [data]. *)
Record Part : Type := { inlineData : option (option string) }.

(** [generateContent] returns, with
    [response.candidates?.[0]?.content?.parts], or throws. *)
Inductive Outcome : Type :=
| Returned (parts : option (list Part))
| Threw.

Record Env : Type := {
  API_KEY : option string;
  outcome : Outcome
}.

Inductive Effect : Type :=
| GenerateContent (r : Request)
| ConsoleError
| Alert (message : string).

Definition request (s : State) (image : string) : Request :=
  {| model := match quality s with
              | Q1K => "gemini-2.5-flash-image"
              | _ => "gemini-3-pro-image-preview"
              end;
     inlineData_data := image;
     inlineData_mimeType := "image/jpeg";
     text := "Replace the background with " +:+ prompt s;
     imageConfig := match quality s with
                    | Q1K => None
                    | q => Some {| imageSize := q |}
                    end |}.

(** The [for ... of parts] loop: the first part with inline data wins. *)
Fixpoint first_inline (parts : list Part) : option string :=
  match parts with
  | [] => None
  | p :: rest =>
      match inlineData p with
      | Some data => Some ("data:image/png;base64," +:+ Js.interpolate data)
      | None => first_inline rest
      end
  end.

Definition setLoading (b : bool) (s : State) : State :=
  {| originalImage := originalImage s; generatedImage := generatedImage s;
     prompt := prompt s; loading := b; quality := quality s |}.

Definition setGeneratedImage (g : option string) (s : State) : State :=
  {| originalImage := originalImage s; generatedImage := g;
     prompt := prompt s; loading := loading s; quality := quality s |}.

Definition failure_text : string :=
  "Er is iets misgegaan bij het genereren. Probeer het opnieuw.".

Definition handleGenerate (e : Env) (s : State) : State * list Effect :=
  if negb (Js.truthy (originalImage s)) || negb (Js.truthy (API_KEY e)) then (s, [])
  else
    let s1 := setGeneratedImage None (setLoading true s) in
    let req := request s (Js.interpolate (originalImage s)) in
    match outcome e with
    | Returned parts =>
        let s2 := match parts with
                  | Some ps =>
                      match first_inline ps with
                      | Some url => setGeneratedImage (Some url) s1
                      | None => s1
                      end
                  | None => s1
                  end in
        (setLoading false s2, [GenerateContent req])
    | Threw =>
        (setLoading false s1, [GenerateContent req; ConsoleError; Alert failure_text])
    end.

(** ** The other handlers of the panel *)

Definition setOriginalImage (o : option string) (s : State) : State :=
  {| originalImage := o; generatedImage := generatedImage s;
     prompt := prompt s; loading := loading s; quality := quality s |}.

Definition setPrompt (p : string) (s : State) : State :=
  {| originalImage := originalImage s; generatedImage := generatedImage s;
     prompt := p; loading := loading s; quality := quality s |}.

Definition setQuality (q : QualityOption) (s : State) : State :=
  {| originalImage := originalImage s; generatedImage := generatedImage s;
     prompt := prompt s; loading := loading s; quality := q |}.

(** [handleFileUpload].  [file] is [e.target.files?.[0]], given by what
    the reader does with it.  A rejected [blobToBase64] ends the handler
    before its two state updates. *)
Definition handleFileUpload (file : option ReadOutcome) (s : State) : State :=
  match file with
  | None => s
  | Some o =>
      match blobToBase64 o with
      | Js.Resolved base64 => setGeneratedImage None (setOriginalImage base64 s)
      | _ => s
      end
  end.

(** The button "Verwijderen". *)
Definition removePhoto (s : State) : State :=
  setGeneratedImage None (setOriginalImage None s).

(** The button "Nog een maken". *)
Definition makeAnother (s : State) : State := setGeneratedImage None s.

(** [disabled={!originalImage || loading}] on the generate button. *)
Definition generate_disabled (s : State) : bool :=
  negb (Js.truthy (originalImage s)) || loading s.

(** [handleGenerate] around its [await]: the statements up to the
    request, and what runs once the request has come back. *)
Definition handleGenerate_begin (s : State) : State :=
  setGeneratedImage None (setLoading true s).

Definition handleGenerate_end (o : Outcome) (s : State) : State :=
  setLoading false
    match o with
    | Returned (Some ps) =>
        match first_inline ps with
        | Some url => setGeneratedImage (Some url) s
        | None => s
        end
    | _ => s
    end.

End VintedStudio.

(* ===================================================================== *)
(** * src/components/ImageGenerator.tsx                                   *)
(* ===================================================================== *)

Module ImageGenerator.
Import Types.

(** [ImageGenConfig['aspectRatio']] *)
Inductive AspectRatio : Type := R1_1 | R3_4 | R4_3 | R16_9 | R9_16.

Record State : Type := {
  prompt : string;
  generatedImage : option string;
  loading : bool;
  aspectRatio : AspectRatio;
  size : QualityOption
}.

Record Request : Type := {
  model : string;
  text : string;
  imageConfig_aspectRatio : AspectRatio;
  imageConfig_imageSize : QualityOption
}.

(** What the [try] block meets: the constructor of the client throws,
    the request returns with [response.candidates?.[0]?.content?.parts],
    or the request throws.  An exception carries its [message]. *)
Inductive Outcome : Type :=
| NoClient (message : option string)
| Returned (parts : option (list VintedStudio.Part))
| Threw (message : option string).

Inductive Effect : Type :=
| GenerateContent (r : Request)
| ConsoleError
| Alert (message : string).

Definition setLoading (b : bool) (s : State) : State :=
  {| prompt := prompt s; generatedImage := generatedImage s; loading := b;
     aspectRatio := aspectRatio s; size := size s |}.

Definition setGeneratedImage (g : option string) (s : State) : State :=
  {| prompt := prompt s; generatedImage := g; loading := loading s;
     aspectRatio := aspectRatio s; size := size s |}.

Definition request (s : State) : Request :=
  {| model := "gemini-3-pro-image-preview";
     text := prompt s;
     imageConfig_aspectRatio := aspectRatio s;
     imageConfig_imageSize := size s |}.

(** The [catch] block. *)
Definition catch (message : option string) : list Effect :=
  [ConsoleError; Alert ("Error: " +:+ Js.interpolate message)].

(** [generate].  The loop over the parts is the one of the background
    panel, [VintedStudio.first_inline]. *)
Definition generate (o : Outcome) (s : State) : State * list Effect :=
  if negb (Js.truthy (Some (prompt s))) then (s, [])
  else
    let s1 := setGeneratedImage None (setLoading true s) in
    match o with
    | NoClient message => (setLoading false s1, catch message)
    | Returned parts =>
        let s2 := match parts with
                  | Some ps =>
                      match VintedStudio.first_inline ps with
                      | Some url => setGeneratedImage (Some url) s1
                      | None => s1
                      end
                  | None => s1
                  end in
        (setLoading false s2, [GenerateContent (request s)])
    | Threw message =>
        (setLoading false s1, GenerateContent (request s) :: catch message)
    end.

(** [disabled={loading || !prompt}] on the button. *)
Definition generate_disabled (s : State) : bool :=
  loading s || negb (Js.truthy (Some (prompt s))).

End ImageGenerator.

(* ===================================================================== *)
(** * src/components/VintedStudio.tsx: video generation (VeoStudio)       *)
(* ===================================================================== *)

Module VeoStudio.

Record State : Type := {
  prompt : string;
  loading : bool;
  videoUrl : option string;
  uploadImage : option string;
  status : string
}.

(** A long-running operation as the loop sees it: [operation.done] and
    [operation.response?.generatedVideos?.[0]?.video?.uri]. *)
Record Operation : Type := {
  done : option bool;
  uri : option string
}.

(** An awaited call returns, or throws an error with its [message]. *)
Inductive Answer (A : Type) : Type :=
| Returned (a : A)
| Threw (message : option string).
Arguments Returned {A} a.
Arguments Threw {A} message.

(** [window.aistudio]: whether a key is selected, and whether the
    selection dialog comes back without an exception. *)
Record AiStudio : Type := {
  hasSelectedApiKey : bool;
  openSelectKey_returns : bool
}.

(** The world around one call: the answer to [generateVideos], the
    answer to the k-th [getVideosOperation] for every k, and the object
    URL made from the downloaded blob. *)
Record Env : Type := {
  aistudio : option AiStudio;
  API_KEY : option string;
  generateVideos : Answer Operation;
  getVideosOperation : nat -> Answer Operation;
  download : Answer string
}.

Inductive Effect : Type :=
| Alert (message : string)
| ConsoleError
| OpenSelectKey
| GenerateVideos (withImage : bool)
| Sleep (ms : Z)
| GetVideosOperation (k : nat)
| Fetch (url : string).

Definition setLoading (b : bool) (s : State) : State :=
  {| prompt := prompt s; loading := b; videoUrl := videoUrl s;
     uploadImage := uploadImage s; status := status s |}.

Definition setVideoUrl (u : option string) (s : State) : State :=
  {| prompt := prompt s; loading := loading s; videoUrl := u;
     uploadImage := uploadImage s; status := status s |}.

Definition setStatus (t : string) (s : State) : State :=
  {| prompt := prompt s; loading := loading s; videoUrl := videoUrl s;
     uploadImage := uploadImage s; status := t |}.

Definition checkApiKey (e : Env) : bool * list Effect :=
  match aistudio e with
  | None => (false, [Alert "AI Studio environment not detected."])
  | Some a =>
      if hasSelectedApiKey a then (true, [])
      else if openSelectKey_returns a then (true, [OpenSelectKey])
      else (false, [OpenSelectKey; ConsoleError])
  end.

(** [!operation.done] is false only for [done === true]. *)
Definition is_done (operation : Operation) : bool :=
  match done operation with
  | Some true => true
  | _ => false
  end.

(** How the [while] loop was left. *)
Inductive Exit : Type :=
| Normal (operation : Operation)
| Exception (message : option string).

Definition rendering : string := "Rendering video... this may take a minute.".

(** [while (!operation.done) { ... }].  [k] counts the refetches made so
    far; [None] means that the fuel ran out before the loop was left. *)
Fixpoint poll (fuel : nat) (e : Env) (k : nat) (operation : Operation)
    (s : State) (log : list Effect) : option (Exit * State * list Effect) :=
  match fuel with
  | O => None
  | S fuel' =>
      if is_done operation then Some (Normal operation, s, log)
      else
        let s1 := setStatus rendering s in
        let log1 := log ++ [Sleep 5000; GetVideosOperation k] in
        match getVideosOperation e k with
        | Threw message => Some (Exception message, s1, log1)
        | Returned operation' => poll fuel' e (S k) operation' s1 log1
        end
  end.

(** [String.prototype.includes]. *)
Fixpoint includes (needle s : string) : bool :=
  String.prefix needle s ||
  match s with
  | EmptyString => false
  | String _ rest => includes needle rest
  end.

(** The [catch] block. *)
Definition catch (e : Env) (message : option string) : list Effect :=
  ConsoleError ::
  match message with
  | Some m =>
      if includes "Requested entity was not found" m
      then Alert "API Key issue. Please re-select your key." ::
           match aistudio e with Some _ => [OpenSelectKey] | None => [] end
      else [Alert ("Video generation failed: " +:+ m)]
  | None => [Alert ("Video generation failed: " +:+ Js.interpolate None)]
  end.

(** The [finally] block. *)
Definition finally (s : State) : State := setStatus "" (setLoading false s).

Definition generateVideo (fuel : nat) (e : Env) (s : State)
    : option (State * list Effect) :=
  if negb (Js.truthy (Some (prompt s))) then Some (s, [])
  else
    let '(hasKey, log0) := checkApiKey e in
    if negb hasKey then Some (s, log0)
    else
      let s1 := setStatus "Initializing generation..." (setVideoUrl None (setLoading true s)) in
      let s2 := setStatus (if Js.truthy (uploadImage s)
                           then "Uploading image & generating video..."
                           else "Generating video from text...") s1 in
      let log1 := log0 ++ [GenerateVideos (Js.truthy (uploadImage s))] in
      match generateVideos e with
      | Threw message => Some (finally s2, log1 ++ catch e message)
      | Returned operation0 =>
          match poll fuel e 0 operation0 s2 log1 with
          | None => None
          | Some (Exception message, s3, log3) =>
              Some (finally s3, log3 ++ catch e message)
          | Some (Normal operation, s3, log3) =>
              if Js.truthy (uri operation) && Js.truthy (API_KEY e) then
                let s4 := setStatus "Downloading video..." s3 in
                let url := Js.interpolate (uri operation) +:+ "&key=" +:+
                           Js.interpolate (API_KEY e) in
                let log4 := log3 ++ [Fetch url] in
                match download e with
                | Returned objectUrl => Some (finally (setVideoUrl (Some objectUrl) s4), log4)
                | Threw message => Some (finally s4, log4 ++ catch e message)
                end
              else Some (finally s3, log3 ++ catch e (Some "No video URI returned"))
          end
      end.



Definition is_poll (x : Effect) : bool :=
  match x with
  | Sleep _ | GetVideosOperation _ => true
  | _ => false
  end.

Definition is_fetch (x : Effect) : bool :=
  match x with
  | Fetch _ => true
  | _ => false
  end.


(** ** The upload handler *)

Definition setUploadImage (o : option string) (s : State) : State :=
  {| prompt := prompt s; loading := loading s; videoUrl := videoUrl s;
     uploadImage := o; status := status s |}.

(** [handleImageUpload].  [file] is [e.target.files?.[0]], given by what
    the reader does with it; a rejected [blobToBase64] ends the handler
    before the state update. *)
Definition handleImageUpload (file : option Types.ReadOutcome) (s : State) : State :=
  match file with
  | None => s
  | Some o =>
      match Types.blobToBase64 o with
      | Js.Resolved base64 => setUploadImage base64 s
      | _ => s
      end
  end.

(** [disabled={loading || !prompt}] on the button. *)
Definition generate_disabled (s : State) : bool :=
  loading s || negb (Js.truthy (Some (prompt s))).


Definition is_generate (x : Effect) : bool :=
  match x with
  | GenerateVideos _ => true
  | _ => false
  end.

(** How often an effect of a kind occurs in a log. *)
Fixpoint count (kind : Effect -> bool) (log : list Effect) : nat :=
  match log with
  | [] => 0
  | x :: rest => ((if kind x then 1 else 0) + count kind rest)%nat
  end.

End VeoStudio.

(* ===================================================================== *)
(** * src/components/LiveAssistant.tsx: the live voice session            *)
(* ===================================================================== *)

Module LiveAssistant.

(** ** Objects of the Web Audio API and of the streaming SDK *)

Inductive AudioContextState : Type := suspended | running | closed.

(** [closeCalls] counts the calls of [close()] on the context. *)
Record AudioContext : Type := {
  sampleRate : Z;
  ctx_state : AudioContextState;
  closeCalls : nat
}.

Inductive TrackState : Type := live | track_ended.

Record MediaStream : Type := { tracks : list TrackState }.

(** A [MediaStreamAudioSourceNode]: its stream and the nodes it feeds. *)
Record MediaStreamSource : Type := {
  mss_context : nat;
  mss_stream : nat;
  mss_outputs : list nat
}.

(** A [ScriptProcessorNode].  [sp_session] is the session whose promise
    the [onaudioprocess] closure holds. *)
Record ScriptProcessor : Type := {
  sp_context : nat;
  bufferSize : nat;
  numberOfInputChannels : nat;
  numberOfOutputChannels : nat;
  sp_session : nat;
  sp_toDestination : bool
}.

Record AudioBuffer : Type := { duration : Q }.

(** An [AudioBufferSourceNode]: [startTime] is the argument of [start],
    [stopped] records a call of [stop], [ended] that the [ended] event
    has been delivered. *)
Record BufferSource : Type := {
  bs_context : nat;
  buffer : option AudioBuffer;
  startTime : option Q;
  stopped : bool;
  ended : bool
}.

(** Modelled from the spec: [createPcmBlob] of utils/audioUtils, which is
    not under src/.  The spec says that the session "captures microphone
    audio, encodes and forwards it in small frames": the blob is the
    frame it encodes, one PCM value per captured sample, in order. *)
Record PcmBlob : Type := { frame : list Q }.

Definition createPcmBlob (inputData : list Q) : PcmBlob := {| frame := inputData |}.

Inductive SessionStatus : Type := connecting | opened | closing | closed_.

(** A streaming session of [ai.live.connect].  [sess_stream] is the
    [stream] its callbacks close over; [sent] lists the realtime inputs
    it was given, oldest first. *)
Record Session : Type := {
  status : SessionStatus;
  closeRequested : bool;
  sess_stream : nat;
  sent : list PcmBlob
}.

(** ** The server message, as far as [onmessage] looks into it *)

Record InlineData : Type := { data : option string }.
Record Part : Type := { inlineData : option InlineData }.
Record Content : Type := { parts : option (list Part) }.
Record ServerContent : Type := {
  modelTurn : option Content;
  interrupted : option bool
}.
Record LiveServerMessage : Type := { serverContent : option ServerContent }.

(** ** The component *)

Record State : Type := {
  (** React state. *)
  connected : bool;
  isTalking : bool;
  error : option string;
  (** Refs: an object is named by its index in the store of its kind. *)
  audioContextRef : option nat;
  inputContextRef : option nat;
  streamRef : option nat;
  processorRef : option nat;
  sessionRef : option nat;
  sourceRef : option nat;
  nextStartTimeRef : Q;
  sourcesRef : gset nat;
  (** The objects of the browser and of the SDK, in allocation order. *)
  contexts : list AudioContext;
  streams : list MediaStream;
  micSources : list MediaStreamSource;
  processors : list ScriptProcessor;
  sessions : list Session;
  bufferSources : list BufferSource;
  (** Calls of [startSession] that wait for [getUserMedia]. *)
  pendingMedia : nat
}.

Definition set_connected (v : bool) (s : State) : State :=
  {| connected := v; isTalking := isTalking s; error := error s;
     audioContextRef := audioContextRef s;
     inputContextRef := inputContextRef s; streamRef := streamRef s;
     processorRef := processorRef s; sessionRef := sessionRef s;
     sourceRef := sourceRef s; nextStartTimeRef := nextStartTimeRef s;
     sourcesRef := sourcesRef s; contexts := contexts s;
     streams := streams s; micSources := micSources s;
     processors := processors s; sessions := sessions s;
     bufferSources := bufferSources s; pendingMedia := pendingMedia s |}.

Definition set_isTalking (v : bool) (s : State) : State :=
  {| connected := connected s; isTalking := v; error := error s;
     audioContextRef := audioContextRef s;
     inputContextRef := inputContextRef s; streamRef := streamRef s;
     processorRef := processorRef s; sessionRef := sessionRef s;
     sourceRef := sourceRef s; nextStartTimeRef := nextStartTimeRef s;
     sourcesRef := sourcesRef s; contexts := contexts s;
     streams := streams s; micSources := micSources s;
     processors := processors s; sessions := sessions s;
     bufferSources := bufferSources s; pendingMedia := pendingMedia s |}.

Definition set_error (v : option string) (s : State) : State :=
  {| connected := connected s; isTalking := isTalking s; error := v;
     audioContextRef := audioContextRef s;
     inputContextRef := inputContextRef s; streamRef := streamRef s;
     processorRef := processorRef s; sessionRef := sessionRef s;
     sourceRef := sourceRef s; nextStartTimeRef := nextStartTimeRef s;
     sourcesRef := sourcesRef s; contexts := contexts s;
     streams := streams s; micSources := micSources s;
     processors := processors s; sessions := sessions s;
     bufferSources := bufferSources s; pendingMedia := pendingMedia s |}.

Definition set_audioContextRef (v : option nat) (s : State) : State :=
  {| connected := connected s; isTalking := isTalking s; error := error s;
     audioContextRef := v; inputContextRef := inputContextRef s;
     streamRef := streamRef s; processorRef := processorRef s;
     sessionRef := sessionRef s; sourceRef := sourceRef s;
     nextStartTimeRef := nextStartTimeRef s; sourcesRef := sourcesRef s;
     contexts := contexts s; streams := streams s;
     micSources := micSources s; processors := processors s;
     sessions := sessions s; bufferSources := bufferSources s;
     pendingMedia := pendingMedia s |}.

Definition set_inputContextRef (v : option nat) (s : State) : State :=
  {| connected := connected s; isTalking := isTalking s; error := error s;
     audioContextRef := audioContextRef s; inputContextRef := v;
     streamRef := streamRef s; processorRef := processorRef s;
     sessionRef := sessionRef s; sourceRef := sourceRef s;
     nextStartTimeRef := nextStartTimeRef s; sourcesRef := sourcesRef s;
     contexts := contexts s; streams := streams s;
     micSources := micSources s; processors := processors s;
     sessions := sessions s; bufferSources := bufferSources s;
     pendingMedia := pendingMedia s |}.

Definition set_streamRef (v : option nat) (s : State) : State :=
  {| connected := connected s; isTalking := isTalking s; error := error s;
     audioContextRef := audioContextRef s;
     inputContextRef := inputContextRef s; streamRef := v;
     processorRef := processorRef s; sessionRef := sessionRef s;
     sourceRef := sourceRef s; nextStartTimeRef := nextStartTimeRef s;
     sourcesRef := sourcesRef s; contexts := contexts s;
     streams := streams s; micSources := micSources s;
     processors := processors s; sessions := sessions s;
     bufferSources := bufferSources s; pendingMedia := pendingMedia s |}.

Definition set_processorRef (v : option nat) (s : State) : State :=
  {| connected := connected s; isTalking := isTalking s; error := error s;
     audioContextRef := audioContextRef s;
     inputContextRef := inputContextRef s; streamRef := streamRef s;
     processorRef := v; sessionRef := sessionRef s; sourceRef := sourceRef s;
     nextStartTimeRef := nextStartTimeRef s; sourcesRef := sourcesRef s;
     contexts := contexts s; streams := streams s;
     micSources := micSources s; processors := processors s;
     sessions := sessions s; bufferSources := bufferSources s;
     pendingMedia := pendingMedia s |}.

Definition set_sessionRef (v : option nat) (s : State) : State :=
  {| connected := connected s; isTalking := isTalking s; error := error s;
     audioContextRef := audioContextRef s;
     inputContextRef := inputContextRef s; streamRef := streamRef s;
     processorRef := processorRef s; sessionRef := v;
     sourceRef := sourceRef s; nextStartTimeRef := nextStartTimeRef s;
     sourcesRef := sourcesRef s; contexts := contexts s;
     streams := streams s; micSources := micSources s;
     processors := processors s; sessions := sessions s;
     bufferSources := bufferSources s; pendingMedia := pendingMedia s |}.

Definition set_sourceRef (v : option nat) (s : State) : State :=
  {| connected := connected s; isTalking := isTalking s; error := error s;
     audioContextRef := audioContextRef s;
     inputContextRef := inputContextRef s; streamRef := streamRef s;
     processorRef := processorRef s; sessionRef := sessionRef s;
     sourceRef := v; nextStartTimeRef := nextStartTimeRef s;
     sourcesRef := sourcesRef s; contexts := contexts s;
     streams := streams s; micSources := micSources s;
     processors := processors s; sessions := sessions s;
     bufferSources := bufferSources s; pendingMedia := pendingMedia s |}.

Definition set_nextStartTimeRef (v : Q) (s : State) : State :=
  {| connected := connected s; isTalking := isTalking s; error := error s;
     audioContextRef := audioContextRef s;
     inputContextRef := inputContextRef s; streamRef := streamRef s;
     processorRef := processorRef s; sessionRef := sessionRef s;
     sourceRef := sourceRef s; nextStartTimeRef := v;
     sourcesRef := sourcesRef s; contexts := contexts s;
     streams := streams s; micSources := micSources s;
     processors := processors s; sessions := sessions s;
     bufferSources := bufferSources s; pendingMedia := pendingMedia s |}.

Definition set_sourcesRef (v : gset nat) (s : State) : State :=
  {| connected := connected s; isTalking := isTalking s; error := error s;
     audioContextRef := audioContextRef s;
     inputContextRef := inputContextRef s; streamRef := streamRef s;
     processorRef := processorRef s; sessionRef := sessionRef s;
     sourceRef := sourceRef s; nextStartTimeRef := nextStartTimeRef s;
     sourcesRef := v; contexts := contexts s; streams := streams s;
     micSources := micSources s; processors := processors s;
     sessions := sessions s; bufferSources := bufferSources s;
     pendingMedia := pendingMedia s |}.

Definition set_contexts (v : list AudioContext) (s : State) : State :=
  {| connected := connected s; isTalking := isTalking s; error := error s;
     audioContextRef := audioContextRef s;
     inputContextRef := inputContextRef s; streamRef := streamRef s;
     processorRef := processorRef s; sessionRef := sessionRef s;
     sourceRef := sourceRef s; nextStartTimeRef := nextStartTimeRef s;
     sourcesRef := sourcesRef s; contexts := v; streams := streams s;
     micSources := micSources s; processors := processors s;
     sessions := sessions s; bufferSources := bufferSources s;
     pendingMedia := pendingMedia s |}.

Definition set_streams (v : list MediaStream) (s : State) : State :=
  {| connected := connected s; isTalking := isTalking s; error := error s;
     audioContextRef := audioContextRef s;
     inputContextRef := inputContextRef s; streamRef := streamRef s;
     processorRef := processorRef s; sessionRef := sessionRef s;
     sourceRef := sourceRef s; nextStartTimeRef := nextStartTimeRef s;
     sourcesRef := sourcesRef s; contexts := contexts s; streams := v;
     micSources := micSources s; processors := processors s;
     sessions := sessions s; bufferSources := bufferSources s;
     pendingMedia := pendingMedia s |}.

Definition set_micSources (v : list MediaStreamSource) (s : State) : State :=
  {| connected := connected s; isTalking := isTalking s; error := error s;
     audioContextRef := audioContextRef s;
     inputContextRef := inputContextRef s; streamRef := streamRef s;
     processorRef := processorRef s; sessionRef := sessionRef s;
     sourceRef := sourceRef s; nextStartTimeRef := nextStartTimeRef s;
     sourcesRef := sourcesRef s; contexts := contexts s;
     streams := streams s; micSources := v; processors := processors s;
     sessions := sessions s; bufferSources := bufferSources s;
     pendingMedia := pendingMedia s |}.

Definition set_processors (v : list ScriptProcessor) (s : State) : State :=
  {| connected := connected s; isTalking := isTalking s; error := error s;
     audioContextRef := audioContextRef s;
     inputContextRef := inputContextRef s; streamRef := streamRef s;
     processorRef := processorRef s; sessionRef := sessionRef s;
     sourceRef := sourceRef s; nextStartTimeRef := nextStartTimeRef s;
     sourcesRef := sourcesRef s; contexts := contexts s;
     streams := streams s; micSources := micSources s; processors := v;
     sessions := sessions s; bufferSources := bufferSources s;
     pendingMedia := pendingMedia s |}.

Definition set_sessions (v : list Session) (s : State) : State :=
  {| connected := connected s; isTalking := isTalking s; error := error s;
     audioContextRef := audioContextRef s;
     inputContextRef := inputContextRef s; streamRef := streamRef s;
     processorRef := processorRef s; sessionRef := sessionRef s;
     sourceRef := sourceRef s; nextStartTimeRef := nextStartTimeRef s;
     sourcesRef := sourcesRef s; contexts := contexts s;
     streams := streams s; micSources := micSources s;
     processors := processors s; sessions := v;
     bufferSources := bufferSources s; pendingMedia := pendingMedia s |}.

Definition set_bufferSources (v : list BufferSource) (s : State) : State :=
  {| connected := connected s; isTalking := isTalking s; error := error s;
     audioContextRef := audioContextRef s;
     inputContextRef := inputContextRef s; streamRef := streamRef s;
     processorRef := processorRef s; sessionRef := sessionRef s;
     sourceRef := sourceRef s; nextStartTimeRef := nextStartTimeRef s;
     sourcesRef := sourcesRef s; contexts := contexts s;
     streams := streams s; micSources := micSources s;
     processors := processors s; sessions := sessions s; bufferSources := v;
     pendingMedia := pendingMedia s |}.

Definition set_pendingMedia (v : nat) (s : State) : State :=
  {| connected := connected s; isTalking := isTalking s; error := error s;
     audioContextRef := audioContextRef s;
     inputContextRef := inputContextRef s; streamRef := streamRef s;
     processorRef := processorRef s; sessionRef := sessionRef s;
     sourceRef := sourceRef s; nextStartTimeRef := nextStartTimeRef s;
     sourcesRef := sourcesRef s; contexts := contexts s;
     streams := streams s; micSources := micSources s;
     processors := processors s; sessions := sessions s;
     bufferSources := bufferSources s; pendingMedia := v |}.

Definition init : State :=
  {| connected := false; isTalking := false; error := None;
     audioContextRef := None; inputContextRef := None; streamRef := None;
     processorRef := None; sessionRef := None; sourceRef := None;
     nextStartTimeRef := 0%Q; sourcesRef := ∅;
     contexts := []; streams := []; micSources := []; processors := [];
     sessions := []; bufferSources := []; pendingMedia := 0%nat |}.

(** [ref.current?.method()]: nothing happens on an empty ref. *)
Definition on_ref {A : Type} (method : A -> A) (ref : option nat) (store : list A) : list A :=
  match ref with
  | Some i => alter method i store
  | None => store
  end.

(** ** Methods of the objects *)

Definition new_context (rate : Z) : AudioContext :=
  {| sampleRate := rate; ctx_state := running; closeCalls := 0 |}.

Definition close_context (c : AudioContext) : AudioContext :=
  {| sampleRate := sampleRate c; ctx_state := closed; closeCalls := S (closeCalls c) |}.

(** [if (ref.current?.state !== 'closed') ref.current?.close()] *)
Definition close_unless_closed (c : AudioContext) : AudioContext :=
  match ctx_state c with
  | closed => c
  | _ => close_context c
  end.

(** [getTracks().forEach(track => track.stop())] *)
Definition stop_tracks (m : MediaStream) : MediaStream :=
  {| tracks := map (fun _ => track_ended) (tracks m) |}.

Definition disconnect_source (n : MediaStreamSource) : MediaStreamSource :=
  {| mss_context := mss_context n; mss_stream := mss_stream n; mss_outputs := [] |}.

Definition connect_source (target : nat) (n : MediaStreamSource) : MediaStreamSource :=
  {| mss_context := mss_context n; mss_stream := mss_stream n;
     mss_outputs := mss_outputs n ++ [target] |}.

Definition set_toDestination (b : bool) (p : ScriptProcessor) : ScriptProcessor :=
  {| sp_context := sp_context p; bufferSize := bufferSize p;
     numberOfInputChannels := numberOfInputChannels p;
     numberOfOutputChannels := numberOfOutputChannels p;
     sp_session := sp_session p; sp_toDestination := b |}.

(** [source.start(when)] *)
Definition start (when : Q) (n : BufferSource) : BufferSource :=
  {| bs_context := bs_context n; buffer := buffer n; startTime := Some when;
     stopped := stopped n; ended := ended n |}.

Definition set_buffer (b : AudioBuffer) (n : BufferSource) : BufferSource :=
  {| bs_context := bs_context n; buffer := Some b; startTime := startTime n;
     stopped := stopped n; ended := ended n |}.

(** [s.stop()] *)
Definition stop (n : BufferSource) : BufferSource :=
  {| bs_context := bs_context n; buffer := buffer n; startTime := startTime n;
     stopped := true; ended := ended n |}.

Definition mark_ended (n : BufferSource) : BufferSource :=
  {| bs_context := bs_context n; buffer := buffer n; startTime := startTime n;
     stopped := stopped n; ended := true |}.

(** [sourcesRef.current.forEach(s => s.stop())].  A call of [stop]
    touches its own node only, so the order of the iteration does not
    show in the result. *)
Definition stop_sources (set : gset nat) (nodes : list BufferSource) : list BufferSource :=
  imap (fun i n => if bool_decide (i ∈ set) then stop n else n) nodes.

Definition set_status (st : SessionStatus) (x : Session) : Session :=
  {| status := st; closeRequested := closeRequested x;
     sess_stream := sess_stream x; sent := sent x |}.

(** [sessionPromise.then(s => s.close())]: an open session starts to
    close; one that still connects closes as soon as it has opened. *)
Definition request_close (x : Session) : Session :=
  {| status := match status x with opened => closing | st => st end;
     closeRequested := true;
     sess_stream := sess_stream x; sent := sent x |}.

(** [sessionPromise.then(session => session.sendRealtimeInput({media}))] *)
Definition sendRealtimeInput (media : PcmBlob) (x : Session) : Session :=
  match status x with
  | opened =>
      {| status := status x; closeRequested := closeRequested x;
         sess_stream := sess_stream x; sent := sent x ++ [media] |}
  | _ => x
  end.

(** ** [cleanup] *)

Definition cleanup (s : State) : State :=
  let s := set_sessions (on_ref request_close (sessionRef s) (sessions s)) s in
  let s := set_streams (on_ref stop_tracks (streamRef s) (streams s)) s in
  let s := set_processors (on_ref (set_toDestination false) (processorRef s) (processors s)) s in
  let s := set_micSources (on_ref disconnect_source (sourceRef s) (micSources s)) s in
  let s := set_contexts (on_ref close_unless_closed (inputContextRef s) (contexts s)) s in
  let s := set_contexts (on_ref close_unless_closed (audioContextRef s) (contexts s)) s in
  let s := set_bufferSources (stop_sources (sourcesRef s) (bufferSources s)) s in
  let s := set_sourcesRef ∅ s in
  let s := set_connected false s in
  set_isTalking false s.

(** ** [startSession] *)

(** Up to [await navigator.mediaDevices.getUserMedia(...)]. *)
Definition startSession_begin (s : State) : State :=
  let s := set_error None s in
  let input := length (contexts s) in
  let s := set_contexts (contexts s ++ [new_context 16000]) s in
  let s := set_inputContextRef (Some input) s in
  let output := length (contexts s) in
  let s := set_contexts (contexts s ++ [new_context 24000]) s in
  let s := set_audioContextRef (Some output) s in
  set_pendingMedia (S (pendingMedia s)) s.

(** After the microphone was granted: [ai.live.connect] and the handle. *)
Definition startSession_granted (ntracks : nat) (s : State) : State :=
  let stream := length (streams s) in
  let s := set_streams (streams s ++ [{| tracks := replicate ntracks live |}]) s in
  let s := set_streamRef (Some stream) s in
  let session := length (sessions s) in
  let s := set_sessions (sessions s ++
             [{| status := connecting; closeRequested := false;
                 sess_stream := stream; sent := [] |}]) s in
  let s := set_sessionRef (Some session) s in
  set_pendingMedia (pred (pendingMedia s)) s.

(** The [catch] block, after [getUserMedia] was refused. *)
Definition startSession_denied (s : State) : State :=
  let s := set_error (Some "Failed to start session. Check permissions.") s in
  let s := cleanup s in
  set_pendingMedia (pred (pendingMedia s)) s.

(** ** The callbacks of session [i] *)

Definition onopen (i : nat) (s : State) : State :=
  let s := set_connected true s in
  match inputContextRef s, sessions s !! i with
  | Some ctx, Some session =>
      let source := length (micSources s) in
      let s := set_micSources (micSources s ++
                 [{| mss_context := ctx; mss_stream := sess_stream session;
                     mss_outputs := [] |}]) s in
      let s := set_sourceRef (Some source) s in
      let processor := length (processors s) in
      let s := set_processors (processors s ++
                 [{| sp_context := ctx; bufferSize := 4096;
                     numberOfInputChannels := 1; numberOfOutputChannels := 1;
                     sp_session := i; sp_toDestination := false |}]) s in
      let s := set_processorRef (Some processor) s in
      let s := set_micSources (alter (connect_source processor) source (micSources s)) s in
      set_processors (alter (set_toDestination true) processor (processors s)) s
  | _, _ => s
  end.

(** [processor.onaudioprocess] of processor [p]. *)
Definition onaudioprocess (p : nat) (inputBuffer : list (list Q)) (s : State) : State :=
  match processors s !! p, inputBuffer !! 0%nat with
  | Some processor, Some inputData =>
      let pcmBlob := createPcmBlob inputData in
      set_sessions (alter (sendRealtimeInput pcmBlob) (sp_session processor) (sessions s)) s
  | _, _ => s
  end.

(** [serverContent?.modelTurn?.parts?.[0]?.inlineData?.data] *)
Definition inline_audio (msg : LiveServerMessage) : option string :=
  sc ← serverContent msg;
  turn ← modelTurn sc;
  ps ← parts turn;
  p ← ps !! 0%nat;
  blob ← inlineData p;
  data blob.

Definition has_audio (msg : LiveServerMessage) : bool := Js.truthy (inline_audio msg).

(** [serverContent?.interrupted] *)
Definition is_interrupted (msg : LiveServerMessage) : bool :=
  match serverContent msg with
  | Some sc => match interrupted sc with Some true => true | _ => false end
  | None => false
  end.

(** The listener of the [ended] event of node [source]. *)
Definition onended (source : nat) (s : State) : State :=
  let s := set_sourcesRef (sourcesRef s ∖ {[source]}) s in
  if bool_decide (size (sourcesRef s) = 0%nat) then set_isTalking false s else s.

(** The first [if] of [onmessage], up to [await decodeAudioData(...)].
    [now] is [ctx.currentTime].  [None]: the non-null assertion on
    [audioContextRef.current] failed. *)
Definition onmessage_audio_begin (now : Q) (s : State) : option (nat * State) :=
  let s := set_isTalking true s in
  match audioContextRef s with
  | None => None
  | Some ctx => Some (ctx, set_nextStartTimeRef (Qmax (nextStartTimeRef s) now) s)
  end.

(** The rest of the first [if], once [audioBuffer] is decoded. *)
Definition onmessage_audio_end (ctx : nat) (audioBuffer : AudioBuffer) (s : State) : State :=
  let source := length (bufferSources s) in
  let s := set_bufferSources (bufferSources s ++
             [{| bs_context := ctx; buffer := None; startTime := None;
                 stopped := false; ended := false |}]) s in
  let s := set_bufferSources (alter (set_buffer audioBuffer) source (bufferSources s)) s in
  let s := set_bufferSources
             (alter (start (nextStartTimeRef s)) source (bufferSources s)) s in
  let s := set_nextStartTimeRef (nextStartTimeRef s + duration audioBuffer)%Q s in
  set_sourcesRef (sourcesRef s ∪ {[source]}) s.

(** The two parts back to back: [decodeAudioData] (utils/audioUtils, not
    under src/) resolves with [audioBuffer] before another handler runs. *)
Definition onmessage_audio (now : Q) (audioBuffer : AudioBuffer) (s : State) : option State :=
  match onmessage_audio_begin now s with
  | None => None
  | Some (ctx, s) => Some (onmessage_audio_end ctx audioBuffer s)
  end.

(** The second [if] of [onmessage]. *)
Definition onmessage_interrupted (s : State) : State :=
  let s := set_bufferSources (stop_sources (sourcesRef s) (bufferSources s)) s in
  let s := set_sourcesRef ∅ s in
  let s := set_nextStartTimeRef 0%Q s in
  set_isTalking false s.

Definition onmessage (now : Q) (audioBuffer : AudioBuffer) (msg : LiveServerMessage)
    (s : State) : State :=
  let after_audio :=
    if has_audio msg then onmessage_audio now audioBuffer s else Some s in
  match after_audio with
  | None => set_isTalking true s
  | Some s => if is_interrupted msg then onmessage_interrupted s else s
  end.

Definition onclose (s : State) : State := set_connected false s.

Definition onerror (s : State) : State :=
  cleanup (set_error (Some "Connection error occurred.") s).

(** ** The panel as a transition system *)

(** What can happen to the mounted panel: the two buttons (the start
    button is rendered while [connected] is false, the end button while it
    is true), the unmount, the answer to [getUserMedia], the callbacks of
    a session, an audio-process event of a processor and the [ended]
    event of a playback node. *)
Inductive Event : Type :=
| ClickStart
| ClickEnd
| Unmount
| MediaGranted (ntracks : nat)
| MediaDenied
| SessionOpen (i : nat)
| SessionMessage (i : nat) (now : Q) (audioBuffer : AudioBuffer) (msg : LiveServerMessage)
| SessionClose (i : nat)
| SessionError (i : nat)
| AudioProcess (p : nat) (inputBuffer : list (list Q))
| SourceEnded (n : nat).

Definition is_open (x : Session) : bool :=
  match status x with opened => true | _ => false end.

Definition is_closed (x : Session) : bool :=
  match status x with closed_ => true | _ => false end.

(** The browser hands a processor buffers of its own shape. *)
Definition well_shaped (processor : ScriptProcessor) (inputBuffer : list (list Q)) : bool :=
  (length inputBuffer =? numberOfInputChannels processor)%nat &&
  forallb (fun channel => (length channel =? bufferSize processor)%nat) inputBuffer.

(** [None]: the event cannot happen in this state. *)
Definition step (ev : Event) (s : State) : option State :=
  match ev with
  | ClickStart => if connected s then None else Some (startSession_begin s)
  | ClickEnd => if connected s then Some (cleanup s) else None
  | Unmount => Some (cleanup s)
  | MediaGranted ntracks =>
      match pendingMedia s with
      | O => None
      | S _ => Some (startSession_granted ntracks s)
      end
  | MediaDenied =>
      match pendingMedia s with
      | O => None
      | S _ => Some (startSession_denied s)
      end
  | SessionOpen i =>
      match sessions s !! i with
      | Some x =>
          match status x with
          | connecting =>
              let st := if closeRequested x then closing else opened in
              Some (onopen i (set_sessions (alter (set_status st) i (sessions s)) s))
          | _ => None
          end
      | None => None
      end
  | SessionMessage i now audioBuffer msg =>
      match sessions s !! i with
      | Some x =>
          match status x with
          | opened | closing => Some (onmessage now audioBuffer msg s)
          | _ => None
          end
      | None => None
      end
  | SessionClose i =>
      match sessions s !! i with
      | Some x =>
          if is_closed x then None
          else Some (onclose (set_sessions (alter (set_status closed_) i (sessions s)) s))
      | None => None
      end
  | SessionError i =>
      match sessions s !! i with
      | Some x => if is_closed x then None else Some (onerror s)
      | None => None
      end
  | AudioProcess p inputBuffer =>
      match processors s !! p with
      | Some processor =>
          if sp_toDestination processor && well_shaped processor inputBuffer
          then Some (onaudioprocess p inputBuffer s)
          else None
      | None => None
      end
  | SourceEnded n =>
      match bufferSources s !! n with
      | Some node =>
          if ended node then None
          else Some (onended n (set_bufferSources (alter mark_ended n (bufferSources s)) s))
      | None => None
      end
  end.

Fixpoint run (trace : list Event) (s : State) : option State :=
  match trace with
  | [] => Some s
  | ev :: rest =>
      match step ev s with
      | Some s' => run rest s'
      | None => None
      end
  end.

Definition reachable (s : State) : Prop := exists trace, run trace init = Some s.

(** The same transitions as a relation, one rule per event. *)
Inductive steps (s : State) : Event -> State -> Prop :=
| steps_ClickStart :
    connected s = false ->
    steps s ClickStart (startSession_begin s)
| steps_ClickEnd :
    connected s = true ->
    steps s ClickEnd (cleanup s)
| steps_Unmount :
    steps s Unmount (cleanup s)
| steps_MediaGranted ntracks :
    (0 < pendingMedia s)%nat ->
    steps s (MediaGranted ntracks) (startSession_granted ntracks s)
| steps_MediaDenied :
    (0 < pendingMedia s)%nat ->
    steps s MediaDenied (startSession_denied s)
| steps_SessionOpen i x :
    sessions s !! i = Some x -> status x = connecting ->
    steps s (SessionOpen i)
      (onopen i (set_sessions
         (alter (set_status (if closeRequested x then closing else opened)) i (sessions s)) s))
| steps_SessionMessage i x now audioBuffer msg :
    sessions s !! i = Some x -> status x = opened \/ status x = closing ->
    steps s (SessionMessage i now audioBuffer msg) (onmessage now audioBuffer msg s)
| steps_SessionClose i x :
    sessions s !! i = Some x -> is_closed x = false ->
    steps s (SessionClose i)
      (onclose (set_sessions (alter (set_status closed_) i (sessions s)) s))
| steps_SessionError i x :
    sessions s !! i = Some x -> is_closed x = false ->
    steps s (SessionError i) (onerror s)
| steps_AudioProcess p processor inputBuffer :
    processors s !! p = Some processor ->
    sp_toDestination processor = true ->
    well_shaped processor inputBuffer = true ->
    steps s (AudioProcess p inputBuffer) (onaudioprocess p inputBuffer s)
| steps_SourceEnded n node :
    bufferSources s !! n = Some node -> ended node = false ->
    steps s (SourceEnded n)
      (onended n (set_bufferSources (alter mark_ended n (bufferSources s)) s)).

Fixpoint open_sessions (xs : list Session) : nat :=
  match xs with
  | [] => 0
  | x :: rest => (if is_open x then 1 else 0) + open_sessions rest
  end.

(** A node that can still be heard now or later: started, not stopped,
    and its [ended] event not yet delivered. *)
Definition sounding (n : BufferSource) : bool :=
  match startTime n with
  | Some _ => negb (stopped n) && negb (ended n)
  | None => false
  end.

(** ** Invariants of the reachable states *)

(** Every node that can still be heard is in the set of scheduled sources. *)
Definition covers (s : State) : Prop :=
  forall n node,
    bufferSources s !! n = Some node -> sounding node = true -> n ∈ sourcesRef s.

(** Once a start is under way, both context refs are set. *)
Definition contexts_set (s : State) : Prop :=
  (0 < pendingMedia s)%nat \/ (0 < length (sessions s))%nat ->
  is_Some (audioContextRef s) /\ is_Some (inputContextRef s).

Definition input_rate (s : State) : Prop :=
  forall c, inputContextRef s = Some c -> sampleRate <$> contexts s !! c = Some 16000.

Definition processors_shape (s : State) : Prop :=
  forall p processor,
    processors s !! p = Some processor ->
    bufferSize processor = 4096%nat
    /\ numberOfInputChannels processor = 1%nat
    /\ numberOfOutputChannels processor = 1%nat.

Definition frames_full (s : State) : Prop :=
  forall i x blob,
    sessions s !! i = Some x -> In blob (sent x) -> length (frame blob) = 4096%nat.

Definition invariant (s : State) : Prop :=
  covers s /\ contexts_set s /\ input_rate s /\ processors_shape s /\ frames_full s.

(** ** Further invariants of the reachable states *)

(** Every scheduled source is a node that can still be heard. *)
Definition scheduled_sound (s : State) : Prop :=
  forall n, n ∈ sourcesRef s ->
    exists node, bufferSources s !! n = Some node /\ sounding node = true.

(** The indicator is on exactly while a source is scheduled. *)
Definition talking_while_scheduled (s : State) : Prop :=
  isTalking s = negb (bool_decide (sourcesRef s = ∅)).




(** Sessions that connect or are open. *)
Definition is_active (x : Session) : bool :=
  match status x with
  | connecting | opened => true
  | _ => false
  end.

Fixpoint active_sessions (xs : list Session) : nat :=
  match xs with
  | [] => 0
  | x :: rest => (if is_active x then 1 else 0) + active_sessions rest
  end.

(** The starts under way and the sessions that connect or are open. *)
Definition busy (s : State) : nat :=
  (pendingMedia s + active_sessions (sessions s))%nat.

(** No start is under way and no session connects or is open. *)
Definition at_rest (s : State) : bool :=
  (pendingMedia s =? 0)%nat && (active_sessions (sessions s) =? 0)%nat.

(** The runs in which the start button is only clicked at rest. *)
Fixpoint run_apart (trace : list Event) (s : State) : option State :=
  match trace with
  | [] => Some s
  | ev :: rest =>
      let allowed := match ev with ClickStart => at_rest s | _ => true end in
      if allowed then
        match step ev s with
        | Some s' => run_apart rest s'
        | None => None
        end
      else None
  end.

(** Stream [i] exists and the stream ref does not hold it. *)
Definition stream_let_go (i : nat) (s : State) : Prop :=
  (i < length (streams s))%nat /\ streamRef s <> Some i.

(** Processor [p] exists and the processor ref does not hold it. *)
Definition processor_let_go (p : nat) (s : State) : Prop :=
  (p < length (processors s))%nat /\ processorRef s <> Some p.

End LiveAssistant.

(* ===================================================================== *)
(** * Sample inputs                                                       *)
(* ===================================================================== *)

Module Samples.

(** The chat panel: an answered request, a blank input, a typed input. *)
Definition chat_env : SmartChat.Env :=
  {| SmartChat.now_user_id := 1700000000000;
     SmartChat.now_user_timestamp := 1700000000001;
     SmartChat.outcome :=
       SmartChat.Returned {| SmartChat.response_text := Some "Hello!";
                             SmartChat.response_grounding := None |};
     SmartChat.now_reply_id := 1700000002000;
     SmartChat.now_reply_timestamp := 1700000002001 |}.

Definition chat_blank : SmartChat.State :=
  {| SmartChat.messages := []; SmartChat.input := "   ";
     SmartChat.isLoading := false; SmartChat.mode := SmartChat.fast;
     SmartChat.uploadedImage := None |}.

Definition chat_typed : SmartChat.State :=
  {| SmartChat.messages := []; SmartChat.input := "Hi";
     SmartChat.isLoading := false; SmartChat.mode := SmartChat.fast;
     SmartChat.uploadedImage := None |}.

(** The background panel: with and without an uploaded image. *)
Definition studio_env : VintedStudio.Env :=
  {| VintedStudio.API_KEY := Some "key"; VintedStudio.outcome := VintedStudio.Threw |}.

Definition studio_empty : VintedStudio.State :=
  {| VintedStudio.originalImage := None; VintedStudio.generatedImage := None;
     VintedStudio.prompt := "Een pluizig wit vloerkleed";
     VintedStudio.loading := false; VintedStudio.quality := Types.Q1K |}.

Definition studio_4K : VintedStudio.State :=
  {| VintedStudio.originalImage := Some "aGk="; VintedStudio.generatedImage := None;
     VintedStudio.prompt := "Een pluizig wit vloerkleed";
     VintedStudio.loading := false; VintedStudio.quality := Types.Q4K |}.

(** The video panel: the third refetch answers a done operation. *)
Definition video_done : VeoStudio.Operation :=
  {| VeoStudio.done := Some true; VeoStudio.uri := Some "https://video.example/v?alt=media" |}.

Definition video_running : VeoStudio.Operation :=
  {| VeoStudio.done := None; VeoStudio.uri := None |}.

Definition video_env : VeoStudio.Env :=
  {| VeoStudio.aistudio :=
       Some {| VeoStudio.hasSelectedApiKey := true;
               VeoStudio.openSelectKey_returns := true |};
     VeoStudio.API_KEY := Some "key";
     VeoStudio.generateVideos := VeoStudio.Returned video_running;
     VeoStudio.getVideosOperation :=
       fun k => VeoStudio.Returned (if (k <? 2)%nat then video_running else video_done);
     VeoStudio.download := VeoStudio.Returned "blob:video" |}.

Definition video_state : VeoStudio.State :=
  {| VeoStudio.prompt := "A coat on a hanger"; VeoStudio.loading := false;
     VeoStudio.videoUrl := None; VeoStudio.uploadImage := None;
     VeoStudio.status := "" |}.

(** The live session: a message with audio, a message with [interrupted]
    set, a decoded buffer of one second, and three runs of the panel. *)
Definition audio_message : LiveAssistant.LiveServerMessage :=
  {| LiveAssistant.serverContent :=
       Some {| LiveAssistant.modelTurn :=
                 Some {| LiveAssistant.parts :=
                           Some [{| LiveAssistant.inlineData :=
                                      Some {| LiveAssistant.data := Some "AAAA" |} |}] |};
               LiveAssistant.interrupted := None |} |}.


Definition one_second : LiveAssistant.AudioBuffer := {| LiveAssistant.duration := 1%Q |}.

Definition connect_trace : list LiveAssistant.Event :=
  [LiveAssistant.ClickStart; LiveAssistant.MediaGranted 1; LiveAssistant.SessionOpen 0].

Definition speak_trace : list LiveAssistant.Event :=
  connect_trace ++
  [LiveAssistant.SessionMessage 0 (1 # 2)%Q one_second audio_message].

Definition capture_trace : list LiveAssistant.Event :=
  connect_trace ++ [LiveAssistant.AudioProcess 0 [replicate 4096 0%Q]].

Definition after (trace : list LiveAssistant.Event) : LiveAssistant.State :=
  default LiveAssistant.init (LiveAssistant.run trace LiveAssistant.init).

(** The image generator: a typed prompt. *)
Definition art_state : ImageGenerator.State :=
  {| ImageGenerator.prompt := "A futuristic city";
     ImageGenerator.generatedImage := Some "data:image/png;base64,T0xE";
     ImageGenerator.loading := false;
     ImageGenerator.aspectRatio := ImageGenerator.R16_9;
     ImageGenerator.size := Types.Q2K |}.

(** The video panel when the operation never completes. *)
Definition video_stuck_env : VeoStudio.Env :=
  {| VeoStudio.aistudio :=
       Some {| VeoStudio.hasSelectedApiKey := true;
               VeoStudio.openSelectKey_returns := true |};
     VeoStudio.API_KEY := Some "key";
     VeoStudio.generateVideos := VeoStudio.Returned video_running;
     VeoStudio.getVideosOperation := fun _ => VeoStudio.Returned video_running;
     VeoStudio.download := VeoStudio.Returned "blob:video" |}.

(** The video panel outside of AI Studio. *)
Definition video_unhosted_env : VeoStudio.Env :=
  {| VeoStudio.aistudio := None; VeoStudio.API_KEY := None;
     VeoStudio.generateVideos := VeoStudio.Threw None;
     VeoStudio.getVideosOperation := fun _ => VeoStudio.Threw None;
     VeoStudio.download := VeoStudio.Threw None |}.

(** The live session closed by the server and started again. *)
Definition restart_trace : list LiveAssistant.Event :=
  connect_trace ++
  [LiveAssistant.SessionClose 0; LiveAssistant.ClickStart;
   LiveAssistant.MediaGranted 1; LiveAssistant.SessionOpen 1;
   LiveAssistant.ClickEnd; LiveAssistant.SessionClose 1].


(** The start of [restart_trace]: up to the second click on Start, and up
    to the opening of the second session. *)
Definition reclicked_trace : list LiveAssistant.Event :=
  connect_trace ++ [LiveAssistant.SessionClose 0; LiveAssistant.ClickStart].

Definition reopened_trace : list LiveAssistant.Event :=
  reclicked_trace ++ [LiveAssistant.MediaGranted 1; LiveAssistant.SessionOpen 1].

End Samples.

(* ===================================================================== *)
(** * Properties of src/types.ts                                          *)
(* ===================================================================== *)

Section BlobToBase64.
Import Types.

Example trim_both_ends : Js.trim "  a b  " = "a b".
Proof. reflexivity. Qed.

Example trim_blank : Js.trim (String (ascii_of_nat 9) "  ") = "".
Proof. reflexivity. Qed.

Example toString_millis : Js.toString 1700000000000 = "1700000000000".
Proof. reflexivity. Qed.

Example split_two_fields : Js.split "," "ab,cd" = ["ab"; "cd"].
Proof. reflexivity. Qed.

Example split_no_separator : Js.split "," "abcd" = ["abcd"].
Proof. reflexivity. Qed.

Example split_empty_fields : Js.split "," "," = [""; ""].
Proof. reflexivity. Qed.

Lemma split_not_nil sep s : Js.split sep s <> [].
Proof.
  destruct s as [|c rest]; simpl; [discriminate|].
  destruct (Ascii.eqb c sep); [discriminate|].
  destruct (Js.split sep rest); discriminate.
Qed.

(** The first field of the split is the text before the first separator. *)
Lemma split_head s :
  hd_error (Js.split "," s) = Some (before_first_comma s).
Proof.
  induction s as [|c rest IH]; simpl; [reflexivity|].
  destruct (Ascii.eqb c ","); [reflexivity|].
  destruct (Js.split "," rest) as [|field fields]; simpl in *; congruence.
Qed.

(** The second field is what lies between the first comma and the next. *)
Lemma split_second s :
  nth_error (Js.split "," s) 1 = before_first_comma <$> after_first_comma s.
Proof.
  induction s as [|c rest IH]; simpl; [reflexivity|].
  destruct (Ascii.eqb c ",") eqn:Hc; simpl.
  - pose proof (split_head rest) as Hh.
    destruct (Js.split "," rest); simpl in *; congruence.
  - destruct (Js.split "," rest) as [|field fields] eqn:Hs; simpl in *.
    + exfalso. exact (split_not_nil _ _ Hs).
    + exact IH.
Qed.

Lemma before_first_comma_id s : has_comma s = false -> before_first_comma s = s.
Proof.
  induction s as [|c rest IH]; simpl; [reflexivity|].
  destruct (Ascii.eqb c ","); simpl; [discriminate|].
  intros H. now rewrite IH.
Qed.






End BlobToBase64.

(* ===================================================================== *)
(** * Properties of the chat panel                                        *)
(* ===================================================================== *)

Section SmartChatProperties.
Import Types SmartChat Samples.

Lemma guard_true_iff s :
  guard s = true <->
  (Js.trim (input s) = "" /\ Js.truthy (uploadedImage s) = false) \/ isLoading s = true.
Proof.
  unfold guard. rewrite orb_true_iff, andb_true_iff, !negb_true_iff.
  assert (Ht : Js.truthy (Some (Js.trim (input s))) = false <-> Js.trim (input s) = "").
  { destruct (Js.trim (input s)); simpl; split; congruence. }
  rewrite Ht. tauto.
Qed.

(** C8.  When the trimmed input is empty and no image is uploaded, and
    also when a request is in flight, [sendMessage] returns the state it
    was given: messages, input, uploaded image and loading flag are the
    ones before the call. *)
Theorem sendMessage_guarded (e : Env) (s : State) :
  (Js.trim (input s) = "" /\ uploadedImage s = None) \/ isLoading s = true ->
  sendMessage e s = s
  /\ messages (sendMessage e s) = messages s
  /\ input (sendMessage e s) = input s
  /\ uploadedImage (sendMessage e s) = uploadedImage s
  /\ isLoading (sendMessage e s) = isLoading s.
Proof.
  intros H.
  assert (Hg : guard s = true).
  { apply guard_true_iff. destruct H as [[Ht Hu]|Hl]; [left|right; exact Hl].
    split; [exact Ht|]. now rewrite Hu. }
  assert (Hs : sendMessage e s = s) by (unfold sendMessage; now rewrite Hg).
  rewrite Hs. repeat split; reflexivity.
Qed.

Lemma sendMessage_guarded_witness :
  sendMessage chat_env chat_blank = chat_blank.
Proof.
  exact (proj1 (sendMessage_guarded chat_env chat_blank (or_introl (conj eq_refl eq_refl)))).
Defined.

(** C9.  A call that passes the guard appends two messages to the list
    and changes none before them: the user message with the input text
    and the uploaded image, then one message of role [model] whose text
    is the response text, the fallback text when the response has none,
    or the error text when the request threw.  The loading flag is false
    afterwards in both cases. *)
Theorem sendMessage_appends_two (e : Env) (s : State) :
  Js.trim (input s) <> "" \/ Js.truthy (uploadedImage s) = true ->
  isLoading s = false ->
  exists reply,
    messages (sendMessage e s) = messages s ++ [userMsg e s; reply]
    /\ role (userMsg e s) = user
    /\ text (userMsg e s) = input s
    /\ images (userMsg e s) =
         (if Js.truthy (uploadedImage s) then (fun img => [img]) <$> uploadedImage s else None)
    /\ role reply = model
    /\ text reply =
         match outcome e with
         | Returned r =>
             match response_text r with
             | Some (String c rest) => String c rest
             | _ => fallback_text
             end
         | Threw message => "Error: " +:+ Js.interpolate message
         end
    /\ isLoading (sendMessage e s) = false.
Proof.
  intros Hin Hl.
  assert (Hg : guard s = false).
  { destruct (guard s) eqn:Hg; [|reflexivity].
    apply guard_true_iff in Hg. destruct Hg as [[Ht Hu]|Hl']; [|congruence].
    destruct Hin; congruence. }
  unfold sendMessage. rewrite Hg.
  exists (match outcome e with
          | Returned r => botMsg e r
          | Threw message => errorMsg e message
          end).
  unfold sendMessage_end, sendMessage_begin; simpl.
  rewrite <- app_assoc. simpl.
  repeat split; try reflexivity.
  - destruct (outcome e) as [r|m]; reflexivity.
  - destruct (outcome e) as [r|m]; simpl; [|reflexivity].
    destruct (response_text r) as [[|c rest]|]; reflexivity.
Qed.

Lemma sendMessage_appends_two_witness :
  exists reply,
    messages (sendMessage chat_env chat_typed) = [userMsg chat_env chat_typed; reply]
    /\ text reply = "Hello!"
    /\ isLoading (sendMessage chat_env chat_typed) = false.
Proof.
  destruct (sendMessage_appends_two chat_env chat_typed
              (or_introl (fun H : Js.trim "Hi" = "" => eq_ind (Js.trim "Hi")
                 (fun t => match t with EmptyString => False | _ => True end) I "" H))
              eq_refl)
    as (reply & Hm & _ & _ & _ & _ & Ht & Hl).
  exists reply. repeat split; assumption.
Defined.

End SmartChatProperties.

(* ===================================================================== *)
(** * Properties of the background replacement panel                      *)
(* ===================================================================== *)

Section VintedStudioProperties.
Import Types VintedStudio Samples.

(** C10.  Without an uploaded image or without an API key,
    [handleGenerate] returns the state unchanged and sends nothing.
    Otherwise the first thing it does is one request, whose model and
    image configuration follow from the quality alone: [1K] selects
    [gemini-2.5-flash-image] without an image configuration, [2K] and
    [4K] select [gemini-3-pro-image-preview] with the quality as the
    image size. *)
Theorem handleGenerate_quality (e : Env) (s : State) :
  (Js.truthy (originalImage s) = false \/ Js.truthy (API_KEY e) = false ->
     handleGenerate e s = (s, []))
  /\ (Js.truthy (originalImage s) = true -> Js.truthy (API_KEY e) = true ->
      exists req rest,
        snd (handleGenerate e s) = GenerateContent req :: rest
        /\ (quality s = Q1K ->
              model req = "gemini-2.5-flash-image" /\ imageConfig req = None)
        /\ (quality s = Q2K \/ quality s = Q4K ->
              model req = "gemini-3-pro-image-preview"
              /\ imageConfig req = Some {| imageSize := quality s |})).
Proof.
  unfold handleGenerate. split.
  - intros [H|H]; rewrite H; simpl; [reflexivity|].
    now rewrite orb_true_r.
  - intros Hi Hk. rewrite Hi, Hk. simpl.
    exists (request s (Js.interpolate (originalImage s))).
    destruct (outcome e) as [ps|]; eexists; (split; [reflexivity|]);
      unfold request; simpl; split.
    all: try (intros ->; split; reflexivity).
    all: intros [-> | ->]; split; reflexivity.
Qed.

Lemma handleGenerate_quality_witness :
  handleGenerate studio_env studio_empty = (studio_empty, [])
  /\ exists req rest,
       snd (handleGenerate studio_env studio_4K) = GenerateContent req :: rest
       /\ model req = "gemini-3-pro-image-preview"
       /\ imageConfig req = Some {| imageSize := Q4K |}.
Proof.
  split.
  - exact (proj1 (handleGenerate_quality studio_env studio_empty) (or_introl eq_refl)).
  - destruct (proj2 (handleGenerate_quality studio_env studio_4K) eq_refl eq_refl)
      as (req & rest & Hs & _ & H4).
    exists req, rest. split; [exact Hs|]. exact (H4 (or_intror eq_refl)).
Defined.

End VintedStudioProperties.

(* ===================================================================== *)
(** * Properties of the video panel                                       *)
(* ===================================================================== *)

Section VeoStudioProperties.
Import VeoStudio Samples.











Example includes_inside :
  includes "Requested entity was not found" "404: Requested entity was not found." = true.
Proof. reflexivity. Qed.

Example generateVideo_three_rounds :
  snd <$> generateVideo 4 video_env video_state =
    Some [GenerateVideos false;
          Sleep 5000; GetVideosOperation 0;
          Sleep 5000; GetVideosOperation 1;
          Sleep 5000; GetVideosOperation 2;
          Fetch "https://video.example/v?alt=media&key=key"].
Proof. reflexivity. Qed.

Example generateVideo_out_of_fuel :
  generateVideo 3 video_env video_state = None.
Proof. reflexivity. Qed.

End VeoStudioProperties.

(* ===================================================================== *)
(** * Properties of the live voice session                                *)
(* ===================================================================== *)

Section LiveAssistantProperties.
Import LiveAssistant Samples.

(** Reads the fields of a state that is written as a record or as a
    setter applied to a state. *)
Ltac fields :=
  cbn [set_connected set_isTalking set_error set_audioContextRef
       set_inputContextRef set_streamRef set_processorRef set_sessionRef
       set_sourceRef set_nextStartTimeRef set_sourcesRef set_contexts
       set_streams set_micSources set_processors set_sessions
       set_bufferSources set_pendingMedia
       connected isTalking error audioContextRef inputContextRef streamRef
       processorRef sessionRef sourceRef nextStartTimeRef sourcesRef contexts
       streams micSources processors sessions bufferSources pendingMedia] in *.

(** ** Lists used as stores *)

Lemma lookup_snoc_new {A : Type} (l : list A) (x : A) : (l ++ [x]) !! length l = Some x.
Proof. rewrite lookup_app_r by lia. now rewrite Nat.sub_diag. Qed.

(** A method call on the object allocated last. *)
Lemma alter_snoc {A : Type} (f : A -> A) (l : list A) (x : A) :
  alter f (length l) (l ++ [x]) = l ++ [f x].
Proof.
  apply list_eq. intros j.
  destruct (decide (j = length l)) as [->|Hne].
  - now rewrite list_lookup_alter_eq, !lookup_snoc_new.
  - rewrite list_lookup_alter_ne by congruence.
    destruct (Nat.lt_ge_cases j (length l)) as [Hlt|Hge].
    + now rewrite !lookup_app_l by exact Hlt.
    + rewrite !lookup_ge_None_2; [reflexivity| |]; rewrite length_app; simpl; lia.
Qed.

Lemma lookup_alter_cases {A : Type} (f : A -> A) (l : list A) (i j : nat) (y : A) :
  alter f i l !! j = Some y -> exists x, l !! j = Some x /\ (y = x \/ y = f x).
Proof.
  intros H. destruct (decide (i = j)) as [->|Hne].
  - rewrite list_lookup_alter_eq in H. destruct (l !! j) as [x|]; [|discriminate].
    injection H as <-. eauto.
  - rewrite list_lookup_alter_ne in H by exact Hne. eauto.
Qed.

Lemma on_ref_lookup {A : Type} (method : A -> A) (i : nat) (store : list A) :
  on_ref method (Some i) store !! i = method <$> store !! i.
Proof. apply list_lookup_alter_eq. Qed.

Lemma on_ref_length {A : Type} (method : A -> A) ref (store : list A) :
  length (on_ref method ref store) = length store.
Proof. destruct ref; [apply length_alter|reflexivity]. Qed.

Lemma on_ref_cases {A : Type} (f : A -> A) ref (l : list A) (j : nat) (y : A) :
  on_ref f ref l !! j = Some y -> exists x, l !! j = Some x /\ (y = x \/ y = f x).
Proof. destruct ref; [apply lookup_alter_cases|eauto]. Qed.

Lemma on_ref_lookup_fmap {A B : Type} (f : A -> B) (method : A -> A)
    (ref : option nat) (store : list A) (j : nat) :
  (forall a, f (method a) = f a) ->
  f <$> on_ref method ref store !! j = f <$> store !! j.
Proof.
  intros Hf. destruct ref as [i|]; [|reflexivity]. simpl.
  destruct (decide (i = j)) as [->|Hne].
  - rewrite list_lookup_alter_eq. destruct (store !! j); simpl; [|reflexivity].
    now rewrite Hf.
  - now rewrite list_lookup_alter_ne.
Qed.

Lemma stop_sources_lookup (set : gset nat) (nodes : list BufferSource) (i : nat) :
  stop_sources set nodes !! i =
    (fun n => if bool_decide (i ∈ set) then stop n else n) <$> nodes !! i.
Proof. unfold stop_sources. apply list_lookup_imap. Qed.

(** ** The handlers, written as one record each *)

Lemma cleanup_eq (s : State) :
  cleanup s =
  {| connected := false; isTalking := false; error := error s;
     audioContextRef := audioContextRef s; inputContextRef := inputContextRef s;
     streamRef := streamRef s; processorRef := processorRef s;
     sessionRef := sessionRef s; sourceRef := sourceRef s;
     nextStartTimeRef := nextStartTimeRef s; sourcesRef := ∅;
     contexts := on_ref close_unless_closed (audioContextRef s)
                   (on_ref close_unless_closed (inputContextRef s) (contexts s));
     streams := on_ref stop_tracks (streamRef s) (streams s);
     micSources := on_ref disconnect_source (sourceRef s) (micSources s);
     processors := on_ref (set_toDestination false) (processorRef s) (processors s);
     sessions := on_ref request_close (sessionRef s) (sessions s);
     bufferSources := stop_sources (sourcesRef s) (bufferSources s);
     pendingMedia := pendingMedia s |}.
Proof. reflexivity. Qed.

Lemma startSession_begin_eq (s : State) :
  startSession_begin s =
  {| connected := connected s; isTalking := isTalking s; error := None;
     audioContextRef := Some (S (length (contexts s)));
     inputContextRef := Some (length (contexts s));
     streamRef := streamRef s; processorRef := processorRef s;
     sessionRef := sessionRef s; sourceRef := sourceRef s;
     nextStartTimeRef := nextStartTimeRef s; sourcesRef := sourcesRef s;
     contexts := (contexts s ++ [new_context 16000]) ++ [new_context 24000];
     streams := streams s; micSources := micSources s;
     processors := processors s; sessions := sessions s;
     bufferSources := bufferSources s;
     pendingMedia := S (pendingMedia s) |}.
Proof.
  unfold startSession_begin. cbv zeta.
  replace (S (length (contexts s))) with (length (contexts s ++ [new_context 16000]))
    by (rewrite length_app; simpl; lia).
  reflexivity.
Qed.

Lemma startSession_granted_eq (ntracks : nat) (s : State) :
  startSession_granted ntracks s =
  {| connected := connected s; isTalking := isTalking s; error := error s;
     audioContextRef := audioContextRef s; inputContextRef := inputContextRef s;
     streamRef := Some (length (streams s)); processorRef := processorRef s;
     sessionRef := Some (length (sessions s)); sourceRef := sourceRef s;
     nextStartTimeRef := nextStartTimeRef s; sourcesRef := sourcesRef s;
     contexts := contexts s;
     streams := streams s ++ [{| tracks := replicate ntracks live |}];
     micSources := micSources s; processors := processors s;
     sessions := sessions s ++
       [{| status := connecting; closeRequested := false;
           sess_stream := length (streams s); sent := [] |}];
     bufferSources := bufferSources s;
     pendingMedia := pred (pendingMedia s) |}.
Proof. reflexivity. Qed.

Lemma startSession_denied_eq (s : State) :
  startSession_denied s =
  {| connected := false; isTalking := false;
     error := Some "Failed to start session. Check permissions.";
     audioContextRef := audioContextRef s; inputContextRef := inputContextRef s;
     streamRef := streamRef s; processorRef := processorRef s;
     sessionRef := sessionRef s; sourceRef := sourceRef s;
     nextStartTimeRef := nextStartTimeRef s; sourcesRef := ∅;
     contexts := on_ref close_unless_closed (audioContextRef s)
                   (on_ref close_unless_closed (inputContextRef s) (contexts s));
     streams := on_ref stop_tracks (streamRef s) (streams s);
     micSources := on_ref disconnect_source (sourceRef s) (micSources s);
     processors := on_ref (set_toDestination false) (processorRef s) (processors s);
     sessions := on_ref request_close (sessionRef s) (sessions s);
     bufferSources := stop_sources (sourcesRef s) (bufferSources s);
     pendingMedia := pred (pendingMedia s) |}.
Proof. reflexivity. Qed.

Lemma onerror_eq (s : State) :
  onerror s =
  {| connected := false; isTalking := false;
     error := Some "Connection error occurred.";
     audioContextRef := audioContextRef s; inputContextRef := inputContextRef s;
     streamRef := streamRef s; processorRef := processorRef s;
     sessionRef := sessionRef s; sourceRef := sourceRef s;
     nextStartTimeRef := nextStartTimeRef s; sourcesRef := ∅;
     contexts := on_ref close_unless_closed (audioContextRef s)
                   (on_ref close_unless_closed (inputContextRef s) (contexts s));
     streams := on_ref stop_tracks (streamRef s) (streams s);
     micSources := on_ref disconnect_source (sourceRef s) (micSources s);
     processors := on_ref (set_toDestination false) (processorRef s) (processors s);
     sessions := on_ref request_close (sessionRef s) (sessions s);
     bufferSources := stop_sources (sourcesRef s) (bufferSources s);
     pendingMedia := pendingMedia s |}.
Proof. reflexivity. Qed.

Lemma onopen_eq (i : nat) (s : State) (ctx : nat) (x : Session) :
  inputContextRef s = Some ctx -> sessions s !! i = Some x ->
  onopen i s =
  {| connected := true; isTalking := isTalking s; error := error s;
     audioContextRef := audioContextRef s; inputContextRef := inputContextRef s;
     streamRef := streamRef s; processorRef := Some (length (processors s));
     sessionRef := sessionRef s; sourceRef := Some (length (micSources s));
     nextStartTimeRef := nextStartTimeRef s; sourcesRef := sourcesRef s;
     contexts := contexts s; streams := streams s;
     micSources := micSources s ++
       [{| mss_context := ctx; mss_stream := sess_stream x;
           mss_outputs := [length (processors s)] |}];
     processors := processors s ++
       [{| sp_context := ctx; bufferSize := 4096;
           numberOfInputChannels := 1; numberOfOutputChannels := 1;
           sp_session := i; sp_toDestination := true |}];
     sessions := sessions s; bufferSources := bufferSources s;
     pendingMedia := pendingMedia s |}.
Proof.
  intros Hi Hx. unfold onopen. cbv zeta.
  change (inputContextRef (set_connected true s)) with (inputContextRef s).
  change (sessions (set_connected true s)) with (sessions s).
  match goal with |- _ = ?rhs => set (result := rhs) end.
  rewrite Hi, Hx. subst result.
  pose proof (alter_snoc (connect_source (length (processors s))) (micSources s)
                {| mss_context := ctx; mss_stream := sess_stream x; mss_outputs := [] |})
    as Hm.
  pose proof (alter_snoc (set_toDestination true) (processors s)
                {| sp_context := ctx; bufferSize := 4096;
                   numberOfInputChannels := 1; numberOfOutputChannels := 1;
                   sp_session := i; sp_toDestination := false |}) as Hp.
  unfold connect_source, set_toDestination in Hm, Hp. simpl in Hm, Hp.
  rewrite <- Hm, <- Hp. reflexivity.
Qed.

Lemma onopen_stuck (i : nat) (s : State) :
  inputContextRef s = None \/ sessions s !! i = None ->
  onopen i s = set_connected true s.
Proof.
  intros H. unfold onopen. cbv zeta.
  change (inputContextRef (set_connected true s)) with (inputContextRef s).
  change (sessions (set_connected true s)) with (sessions s).
  destruct H as [-> | ->]; [reflexivity|].
  now destruct (inputContextRef s).
Qed.

Lemma onmessage_audio_eq (s : State) (now : Q) (audioBuffer : AudioBuffer) (ctx : nat) :
  audioContextRef s = Some ctx ->
  onmessage_audio now audioBuffer s =
  Some
  {| connected := connected s; isTalking := true; error := error s;
     audioContextRef := audioContextRef s; inputContextRef := inputContextRef s;
     streamRef := streamRef s; processorRef := processorRef s;
     sessionRef := sessionRef s; sourceRef := sourceRef s;
     nextStartTimeRef := (Qmax (nextStartTimeRef s) now + duration audioBuffer)%Q;
     sourcesRef := sourcesRef s ∪ {[length (bufferSources s)]};
     contexts := contexts s; streams := streams s; micSources := micSources s;
     processors := processors s; sessions := sessions s;
     bufferSources := bufferSources s ++
       [{| bs_context := ctx; buffer := Some audioBuffer;
           startTime := Some (Qmax (nextStartTimeRef s) now);
           stopped := false; ended := false |}];
     pendingMedia := pendingMedia s |}.
Proof.
  intros Hctx. unfold onmessage_audio, onmessage_audio_begin. cbv zeta.
  change (audioContextRef (set_isTalking true s)) with (audioContextRef s).
  match goal with |- _ = ?rhs => set (result := rhs) end.
  rewrite Hctx. subst result. unfold onmessage_audio_end. cbv zeta.
  pose proof (alter_snoc (set_buffer audioBuffer) (bufferSources s)
                {| bs_context := ctx; buffer := None; startTime := None;
                   stopped := false; ended := false |}) as Hb.
  pose proof (alter_snoc (start (Qmax (nextStartTimeRef s) now)) (bufferSources s)
                {| bs_context := ctx; buffer := Some audioBuffer; startTime := None;
                   stopped := false; ended := false |}) as Hst.
  unfold set_buffer, start in Hb, Hst. simpl in Hb, Hst.
  rewrite <- Hst, <- Hb. reflexivity.
Qed.

Lemma onmessage_audio_stuck (s : State) (now : Q) (audioBuffer : AudioBuffer) :
  audioContextRef s = None -> onmessage_audio now audioBuffer s = None.
Proof.
  intros Hctx. unfold onmessage_audio, onmessage_audio_begin. cbv zeta.
  change (audioContextRef (set_isTalking true s)) with (audioContextRef s).
  now rewrite Hctx.
Qed.

Lemma onmessage_interrupted_eq (s : State) :
  onmessage_interrupted s =
  {| connected := connected s; isTalking := false; error := error s;
     audioContextRef := audioContextRef s; inputContextRef := inputContextRef s;
     streamRef := streamRef s; processorRef := processorRef s;
     sessionRef := sessionRef s; sourceRef := sourceRef s;
     nextStartTimeRef := 0%Q; sourcesRef := ∅;
     contexts := contexts s; streams := streams s; micSources := micSources s;
     processors := processors s; sessions := sessions s;
     bufferSources := stop_sources (sourcesRef s) (bufferSources s);
     pendingMedia := pendingMedia s |}.
Proof. reflexivity. Qed.

(** ** The transition function and the transition relation agree *)

Lemma some_eq {A : Type} (x y : A) : Some x = Some y -> x = y.
Proof. congruence. Qed.

Lemma step_steps (ev : Event) (s s' : State) : step ev s = Some s' <-> steps s ev s'.
Proof.
  split.
  - intros H. destruct ev; cbn [step] in H.
    + destruct (connected s) eqn:Hc; [discriminate|]. apply some_eq in H; subst s'. now constructor.
    + destruct (connected s) eqn:Hc; [|discriminate]. apply some_eq in H; subst s'. now constructor.
    + apply some_eq in H; subst s'. constructor.
    + destruct (pendingMedia s) eqn:Hp; [discriminate|]. apply some_eq in H; subst s'.
      constructor. lia.
    + destruct (pendingMedia s) eqn:Hp; [discriminate|]. apply some_eq in H; subst s'.
      constructor. lia.
    + destruct (sessions s !! i) as [x|] eqn:Hx; [|discriminate].
      destruct (status x) eqn:Hst; try discriminate. apply some_eq in H; subst s'.
      now apply steps_SessionOpen.
    + destruct (sessions s !! i) as [x|] eqn:Hx; [|discriminate].
      destruct (status x) eqn:Hst; try discriminate; apply some_eq in H; subst s';
        apply (steps_SessionMessage s i x); auto.
    + destruct (sessions s !! i) as [x|] eqn:Hx; [|discriminate].
      destruct (is_closed x) eqn:Hcl; [discriminate|]. apply some_eq in H; subst s'.
      now apply (steps_SessionClose s i x).
    + destruct (sessions s !! i) as [x|] eqn:Hx; [|discriminate].
      destruct (is_closed x) eqn:Hcl; [discriminate|]. apply some_eq in H; subst s'.
      now apply (steps_SessionError s i x).
    + destruct (processors s !! p) as [processor|] eqn:Hp; [|discriminate].
      destruct (sp_toDestination processor && well_shaped processor inputBuffer) eqn:Hw;
        [|discriminate].
      apply some_eq in H; subst s'. apply andb_true_iff in Hw. destruct Hw.
      now apply (steps_AudioProcess s p processor).
    + destruct (bufferSources s !! n) as [node|] eqn:Hn; [|discriminate].
      destruct (ended node) eqn:He; [discriminate|]. apply some_eq in H; subst s'.
      now apply (steps_SourceEnded s n node).
  - intros H. destruct H; cbn [step].
    + now rewrite H.
    + now rewrite H.
    + reflexivity.
    + destruct (pendingMedia s); [lia|reflexivity].
    + destruct (pendingMedia s); [lia|reflexivity].
    + now rewrite H, H0.
    + rewrite H. now destruct H0 as [-> | ->].
    + now rewrite H, H0.
    + now rewrite H, H0.
    + now rewrite H, H0, H1.
    + now rewrite H, H0.
Qed.

(** ** [cleanup] *)

Lemma close_unless_closed_closed c : ctx_state (close_unless_closed c) = closed.
Proof. unfold close_unless_closed. destruct (ctx_state c) eqn:H; simpl; congruence. Qed.

Lemma close_unless_closed_calls c :
  closeCalls (close_unless_closed c) =
    match ctx_state c with closed => closeCalls c | _ => S (closeCalls c) end.
Proof. unfold close_unless_closed. destruct (ctx_state c); reflexivity. Qed.

Lemma close_unless_closed_twice c :
  close_unless_closed (close_unless_closed c) = close_unless_closed c.
Proof. unfold close_unless_closed. destruct (ctx_state c) eqn:H; simpl; now try rewrite H. Qed.

(** The two guarded [close()] calls of [cleanup], seen at one index. *)
Lemma cleanup_contexts_lookup (r1 r2 : option nat) (cs : list AudioContext) (c : nat) :
  r1 = Some c \/ r2 = Some c ->
  on_ref close_unless_closed r2 (on_ref close_unless_closed r1 cs) !! c
  = close_unless_closed <$> cs !! c.
Proof.
  intros H.
  destruct r1 as [i1|], r2 as [i2|]; simpl;
    destruct H as [H|H]; try discriminate; injection H as ->.
  - destruct (decide (i2 = c)) as [->|Hne].
    + rewrite !list_lookup_alter_eq. destruct (cs !! c); simpl; [|reflexivity].
      now rewrite close_unless_closed_twice.
    + rewrite list_lookup_alter_ne by exact Hne. apply list_lookup_alter_eq.
  - destruct (decide (i1 = c)) as [->|Hne].
    + rewrite !list_lookup_alter_eq. destruct (cs !! c); simpl; [|reflexivity].
      now rewrite close_unless_closed_twice.
    + rewrite list_lookup_alter_eq. now rewrite list_lookup_alter_ne.
  - apply list_lookup_alter_eq.
  - apply list_lookup_alter_eq.
Qed.

(** C7.  After [cleanup] the panel is idle: [connected] and [isTalking]
    are false and the set of scheduled sources is empty, while the error
    message is the one before.  Every track of the stored stream is
    stopped, the stored processor and microphone source are disconnected,
    each of the two stored contexts is closed, with [close()] called on
    it exactly when it was not closed already, and every source that was
    in the set is stopped. *)
Theorem cleanup_idle (s : State) :
  connected (cleanup s) = false
  /\ isTalking (cleanup s) = false
  /\ sourcesRef (cleanup s) = ∅
  /\ error (cleanup s) = error s
  /\ (forall i m, streamRef s = Some i -> streams (cleanup s) !! i = Some m ->
        Forall (fun t => t = track_ended) (tracks m))
  /\ (forall p proc, processorRef s = Some p -> processors (cleanup s) !! p = Some proc ->
        sp_toDestination proc = false)
  /\ (forall m src, sourceRef s = Some m -> micSources (cleanup s) !! m = Some src ->
        mss_outputs src = [])
  /\ (forall c ctx, inputContextRef s = Some c \/ audioContextRef s = Some c ->
        contexts s !! c = Some ctx ->
        exists ctx', contexts (cleanup s) !! c = Some ctx'
          /\ ctx_state ctx' = closed
          /\ closeCalls ctx' =
               match ctx_state ctx with
               | closed => closeCalls ctx
               | _ => S (closeCalls ctx)
               end)
  /\ (forall n node, n ∈ sourcesRef s -> bufferSources s !! n = Some node ->
        exists node', bufferSources (cleanup s) !! n = Some node' /\ stopped node' = true).
Proof.
  rewrite cleanup_eq. fields. repeat split.
  - intros i m Hi Hm. rewrite Hi, on_ref_lookup in Hm.
    destruct (streams s !! i) as [m0|]; [|discriminate]. injection Hm as <-.
    unfold stop_tracks. simpl. apply Forall_forall. intros t Ht.
    apply list_elem_of_In, in_map_iff in Ht. destruct Ht as (? & <- & _). reflexivity.
  - intros p proc Hp Hproc. rewrite Hp, on_ref_lookup in Hproc.
    destruct (processors s !! p); [|discriminate]. now injection Hproc as <-.
  - intros m src Hm Hsrc. rewrite Hm, on_ref_lookup in Hsrc.
    destruct (micSources s !! m); [|discriminate]. now injection Hsrc as <-.
  - intros c ctx Href Hctx.
    rewrite cleanup_contexts_lookup by exact Href. rewrite Hctx. simpl.
    eexists. split; [reflexivity|]. split.
    + apply close_unless_closed_closed.
    + apply close_unless_closed_calls.
  - intros n node Hn Hnode. rewrite stop_sources_lookup, Hnode. simpl.
    rewrite bool_decide_eq_true_2 by exact Hn. eexists. split; reflexivity.
Qed.

(** ** Scheduling of the received audio *)



(** ** Sessions *)

(** C3 fails on the code.  The start button stays rendered until
    [onopen] sets [connected]; two clicks before that start two sessions,
    and both open.  The session handle holds the second one only, so the
    end button then closes the second and leaves the first open while
    the start button is offered again. *)
Theorem double_start_two_sessions :
  exists s s',
    run [ClickStart; ClickStart; MediaGranted 1; MediaGranted 1;
         SessionOpen 0; SessionOpen 1] init = Some s
    /\ open_sessions (sessions s) = 2%nat
    /\ sessionRef s = Some 1%nat
    /\ step ClickEnd s = Some s'
    /\ connected s' = false
    /\ open_sessions (sessions s') = 1%nat.
Proof.
  eexists _, _. split; [vm_compute; reflexivity|].
  split; [reflexivity|]. split; [reflexivity|].
  split; [vm_compute; reflexivity|].
  split; reflexivity.
Qed.

(** ** What the callbacks leave alone *)

Lemma onopen_fields (i : nat) (s : State) :
  bufferSources (onopen i s) = bufferSources s
  /\ sourcesRef (onopen i s) = sourcesRef s
  /\ sessions (onopen i s) = sessions s
  /\ contexts (onopen i s) = contexts s
  /\ audioContextRef (onopen i s) = audioContextRef s
  /\ inputContextRef (onopen i s) = inputContextRef s
  /\ pendingMedia (onopen i s) = pendingMedia s
  /\ (forall p processor,
        processors (onopen i s) !! p = Some processor ->
        processors s !! p = Some processor
        \/ (bufferSize processor = 4096%nat
            /\ numberOfInputChannels processor = 1%nat
            /\ numberOfOutputChannels processor = 1%nat)).
Proof.
  destruct (inputContextRef s) as [ctx|] eqn:Hi.
  - destruct (sessions s !! i) as [x|] eqn:Hx.
    + rewrite (onopen_eq i s ctx x Hi Hx). fields. repeat split; try reflexivity.
      * now rewrite Hi.
      * intros p processor Hp. apply lookup_app_Some in Hp.
        destruct Hp as [Hp|[_ Hp]]; [now left|right].
        destruct (p - length (processors s))%nat; [|discriminate].
        injection Hp as <-. repeat split; reflexivity.
    + rewrite (onopen_stuck i s (or_intror Hx)). fields.
      repeat split; try reflexivity. now rewrite Hi. now left.
  - rewrite (onopen_stuck i s (or_introl Hi)). fields.
    repeat split; try reflexivity. now rewrite Hi. now left.
Qed.

(** The audio branch and the interruption branch of [onmessage], by cases. *)
Lemma onmessage_cases (now : Q) (audioBuffer : AudioBuffer) (msg : LiveServerMessage)
    (s : State) :
  (has_audio msg = true /\ audioContextRef s = None
   /\ onmessage now audioBuffer msg s = set_isTalking true s)
  \/ (exists s1,
        (has_audio msg = false /\ s1 = s
         \/ has_audio msg = true /\ onmessage_audio now audioBuffer s = Some s1)
        /\ onmessage now audioBuffer msg s =
             if is_interrupted msg then onmessage_interrupted s1 else s1).
Proof.
  unfold onmessage. destruct (has_audio msg).
  - destruct (audioContextRef s) as [ctx|] eqn:Hctx.
    + right. rewrite (onmessage_audio_eq s now audioBuffer ctx Hctx).
      eexists. split; [right; split; reflexivity|reflexivity].
    + left. rewrite (onmessage_audio_stuck s now audioBuffer Hctx). auto.
  - right. exists s. auto.
Qed.

Lemma onmessage_audio_fields (now : Q) (audioBuffer : AudioBuffer) (s s1 : State) :
  onmessage_audio now audioBuffer s = Some s1 ->
  sessions s1 = sessions s /\ contexts s1 = contexts s /\ processors s1 = processors s
  /\ audioContextRef s1 = audioContextRef s /\ inputContextRef s1 = inputContextRef s
  /\ pendingMedia s1 = pendingMedia s.
Proof.
  destruct (audioContextRef s) as [ctx|] eqn:Hctx.
  - rewrite (onmessage_audio_eq s now audioBuffer ctx Hctx). intros H.
    apply some_eq in H. subst s1. fields. repeat split; try reflexivity.
    now rewrite Hctx.
  - rewrite (onmessage_audio_stuck s now audioBuffer Hctx). discriminate.
Qed.

Lemma onmessage_fields (now : Q) (audioBuffer : AudioBuffer) (msg : LiveServerMessage)
    (s : State) :
  sessions (onmessage now audioBuffer msg s) = sessions s
  /\ contexts (onmessage now audioBuffer msg s) = contexts s
  /\ processors (onmessage now audioBuffer msg s) = processors s
  /\ audioContextRef (onmessage now audioBuffer msg s) = audioContextRef s
  /\ inputContextRef (onmessage now audioBuffer msg s) = inputContextRef s
  /\ pendingMedia (onmessage now audioBuffer msg s) = pendingMedia s.
Proof.
  destruct (onmessage_cases now audioBuffer msg s) as [(_ & _ & ->)|(s1 & Hs1 & ->)].
  - fields. repeat split; reflexivity.
  - assert (H1 : sessions s1 = sessions s /\ contexts s1 = contexts s
                 /\ processors s1 = processors s
                 /\ audioContextRef s1 = audioContextRef s
                 /\ inputContextRef s1 = inputContextRef s
                 /\ pendingMedia s1 = pendingMedia s).
    { destruct Hs1 as [[_ ->]|[_ Hs1]]; [repeat split; reflexivity|].
      exact (onmessage_audio_fields _ _ _ _ Hs1). }
    destruct (is_interrupted msg); [|exact H1].
    rewrite onmessage_interrupted_eq. fields. exact H1.
Qed.

(** A well-shaped input buffer has a channel 0 of the processor's size. *)
Lemma well_shaped_channel (processor : ScriptProcessor) (inputBuffer : list (list Q)) :
  numberOfInputChannels processor = 1%nat ->
  well_shaped processor inputBuffer = true ->
  exists inputData,
    inputBuffer !! 0%nat = Some inputData /\ length inputData = bufferSize processor.
Proof.
  intros Hin Hw. unfold well_shaped in Hw. apply andb_true_iff in Hw.
  destruct Hw as [Hlen Hall]. rewrite Hin in Hlen. apply Nat.eqb_eq in Hlen.
  destruct inputBuffer as [|inputData rest]; [discriminate|].
  exists inputData. split; [reflexivity|].
  simpl in Hall. apply andb_true_iff in Hall. destruct Hall as [Hh _].
  now apply Nat.eqb_eq in Hh.
Qed.

Lemma onended_eq (n : nat) (s : State) :
  exists talking,
    onended n s = set_isTalking talking (set_sourcesRef (sourcesRef s ∖ {[n]}) s).
Proof.
  unfold onended. cbv zeta.
  destruct (bool_decide _).
  - exists false. reflexivity.
  - exists (isTalking s). reflexivity.
Qed.

Lemma onaudioprocess_eq (p : nat) (inputBuffer : list (list Q)) (s : State)
    (processor : ScriptProcessor) (inputData : list Q) :
  processors s !! p = Some processor ->
  inputBuffer !! 0%nat = Some inputData ->
  onaudioprocess p inputBuffer s =
    set_sessions (alter (sendRealtimeInput (createPcmBlob inputData))
                    (sp_session processor) (sessions s)) s.
Proof. intros Hp Hd. unfold onaudioprocess. now rewrite Hp, Hd. Qed.

Lemma onaudioprocess_fields (p : nat) (inputBuffer : list (list Q)) (s : State) :
  bufferSources (onaudioprocess p inputBuffer s) = bufferSources s
  /\ sourcesRef (onaudioprocess p inputBuffer s) = sourcesRef s
  /\ contexts (onaudioprocess p inputBuffer s) = contexts s
  /\ processors (onaudioprocess p inputBuffer s) = processors s
  /\ audioContextRef (onaudioprocess p inputBuffer s) = audioContextRef s
  /\ inputContextRef (onaudioprocess p inputBuffer s) = inputContextRef s
  /\ pendingMedia (onaudioprocess p inputBuffer s) = pendingMedia s
  /\ length (sessions (onaudioprocess p inputBuffer s)) = length (sessions s).
Proof.
  unfold onaudioprocess.
  destruct (processors s !! p), (inputBuffer !! 0%nat); fields;
    repeat split; try reflexivity.
  apply length_alter.
Qed.

(** ** The invariants hold along every transition *)

Lemma sounding_stop node : sounding (stop node) = false.
Proof. unfold sounding, stop. simpl. now destruct (startTime node). Qed.

(** Once the scheduled sources are stopped, nothing sounds. *)
Lemma stop_sources_silent (s : State) :
  covers s ->
  forall n node, stop_sources (sourcesRef s) (bufferSources s) !! n = Some node ->
                 sounding node = false.
Proof.
  intros Hc n node Hn. rewrite stop_sources_lookup in Hn.
  destruct (bufferSources s !! n) as [node0|] eqn:H0; [|discriminate].
  simpl in Hn. injection Hn as <-.
  destruct (bool_decide (n ∈ sourcesRef s)) eqn:Hin.
  - apply sounding_stop.
  - apply bool_decide_eq_false_1 in Hin.
    destruct (sounding node0) eqn:Hs; [|reflexivity].
    exfalso. apply Hin. exact (Hc n node0 H0 Hs).
Qed.

Lemma covers_frame (s s' : State) :
  bufferSources s' = bufferSources s -> sourcesRef s' = sourcesRef s ->
  covers s -> covers s'.
Proof. intros Hb Hs Hc n node. rewrite Hb, Hs. apply Hc. Qed.

Lemma covers_stopped (s s' : State) :
  bufferSources s' = stop_sources (sourcesRef s) (bufferSources s) ->
  covers s -> covers s'.
Proof.
  intros Hb Hc n node Hn Hs. rewrite Hb in Hn.
  rewrite (stop_sources_silent s Hc n node Hn) in Hs. discriminate.
Qed.

Lemma covers_audio (s s1 : State) now audioBuffer :
  onmessage_audio now audioBuffer s = Some s1 -> covers s -> covers s1.
Proof.
  intros H Hc. destruct (audioContextRef s) as [ctx|] eqn:Hctx.
  - rewrite (onmessage_audio_eq s now audioBuffer ctx Hctx) in H.
    apply some_eq in H. subst s1.
    intros n node. fields. intros Hn Hs.
    destruct (Nat.lt_ge_cases n (length (bufferSources s))) as [Hlt|Hge].
    + rewrite lookup_app_l in Hn by exact Hlt.
      apply elem_of_union_l. exact (Hc n node Hn Hs).
    + apply lookup_lt_Some in Hn. rewrite length_app in Hn. simpl in Hn.
      apply elem_of_union_r, elem_of_singleton. lia.
  - rewrite (onmessage_audio_stuck s now audioBuffer Hctx) in H. discriminate.
Qed.

Lemma covers_onmessage now audioBuffer msg (s : State) :
  covers s -> covers (onmessage now audioBuffer msg s).
Proof.
  intros Hc.
  destruct (onmessage_cases now audioBuffer msg s) as [(_ & _ & ->)|(s1 & Hs1 & ->)].
  - now apply (covers_frame s).
  - assert (H1 : covers s1).
    { destruct Hs1 as [[_ ->]|[_ Hs1]]; [exact Hc|exact (covers_audio _ _ _ _ Hs1 Hc)]. }
    destruct (is_interrupted msg); [|exact H1].
    now apply (covers_stopped s1).
Qed.

Lemma steps_covers s ev s' : steps s ev s' -> covers s -> covers s'.
Proof.
  intros Hstep Hc. destruct Hstep.
  - now apply (covers_frame s).
  - now apply (covers_stopped s).
  - now apply (covers_stopped s).
  - now apply (covers_frame s).
  - now apply (covers_stopped s).
  - match goal with |- covers (onopen ?i ?s0) =>
      destruct (onopen_fields i s0) as (Hb & Hs & _) end.
    apply (covers_frame s); [exact Hb|exact Hs|exact Hc].
  - now apply covers_onmessage.
  - now apply (covers_frame s).
  - now apply (covers_stopped s).
  - destruct (onaudioprocess_fields p inputBuffer s) as (Hb & Hs & _).
    now apply (covers_frame s).
  - match goal with |- covers (onended ?n ?s0) =>
      destruct (onended_eq n s0) as (talking & ->) end.
    intros k nodek. fields. intros Hk Hsound.
    destruct (decide (n = k)) as [->|Hne].
    + rewrite list_lookup_alter_eq, H in Hk. simpl in Hk. injection Hk as <-.
      unfold sounding, mark_ended in Hsound. simpl in Hsound.
      destruct (startTime node); [|discriminate].
      now rewrite andb_false_r in Hsound.
    + rewrite list_lookup_alter_ne in Hk by exact Hne.
      apply elem_of_difference. split; [exact (Hc k nodek Hk Hsound)|].
      rewrite elem_of_singleton. congruence.
Qed.

Lemma contexts_set_frame (s s' : State) :
  audioContextRef s' = audioContextRef s ->
  inputContextRef s' = inputContextRef s ->
  ((0 < pendingMedia s')%nat \/ (0 < length (sessions s'))%nat ->
   (0 < pendingMedia s)%nat \/ (0 < length (sessions s))%nat) ->
  contexts_set s -> contexts_set s'.
Proof. intros Ha Hi Hlive H Hs'. rewrite Ha, Hi. apply H, Hlive, Hs'. Qed.

Lemma steps_contexts_set s ev s' : steps s ev s' -> contexts_set s -> contexts_set s'.
Proof.
  intros Hstep Hinv. destruct Hstep.
  - intros _. split; eexists; reflexivity.
  - apply (contexts_set_frame s); try reflexivity; [|exact Hinv].
    rewrite cleanup_eq. fields. now rewrite on_ref_length.
  - apply (contexts_set_frame s); try reflexivity; [|exact Hinv].
    rewrite cleanup_eq. fields. now rewrite on_ref_length.
  - apply (contexts_set_frame s); try reflexivity; [|exact Hinv]. intros _. now left.
  - apply (contexts_set_frame s); try reflexivity; [|exact Hinv]. intros _. now left.
  - match goal with |- contexts_set (onopen ?i ?s0) =>
      destruct (onopen_fields i s0) as (_ & _ & _ & _ & Ha & Hi & _) end.
    apply (contexts_set_frame s); [exact Ha|exact Hi| |exact Hinv].
    intros _. right. apply lookup_lt_Some in H. lia.
  - destruct (onmessage_fields now audioBuffer msg s) as (_ & _ & _ & Ha & Hi & _).
    apply (contexts_set_frame s); [exact Ha|exact Hi| |exact Hinv].
    intros _. right. apply lookup_lt_Some in H. lia.
  - apply (contexts_set_frame s); try reflexivity; [|exact Hinv].
    intros _. right. apply lookup_lt_Some in H. lia.
  - apply (contexts_set_frame s); try reflexivity; [|exact Hinv].
    intros _. right. apply lookup_lt_Some in H. lia.
  - destruct (onaudioprocess_fields p inputBuffer s)
      as (_ & _ & _ & _ & Ha & Hi & Hp & Hl).
    apply (contexts_set_frame s); [exact Ha|exact Hi| |exact Hinv].
    now rewrite Hp, Hl.
  - match goal with |- contexts_set (onended ?n ?s0) =>
      destruct (onended_eq n s0) as (talking & ->) end.
    apply (contexts_set_frame s); try reflexivity; [|exact Hinv]. fields. tauto.
Qed.

Lemma input_rate_frame (s s' : State) :
  inputContextRef s' = inputContextRef s ->
  (forall c, sampleRate <$> contexts s' !! c = sampleRate <$> contexts s !! c) ->
  input_rate s -> input_rate s'.
Proof. intros Hi Hc H c. rewrite Hi, Hc. apply H. Qed.

Lemma closed_contexts_rate (r1 r2 : option nat) (cs : list AudioContext) (c : nat) :
  sampleRate <$> on_ref close_unless_closed r2 (on_ref close_unless_closed r1 cs) !! c
  = sampleRate <$> cs !! c.
Proof.
  rewrite !on_ref_lookup_fmap; [reflexivity| |];
    intros a; unfold close_unless_closed; destruct (ctx_state a); reflexivity.
Qed.

Lemma steps_input_rate s ev s' : steps s ev s' -> input_rate s -> input_rate s'.
Proof.
  intros Hstep Hinv. destruct Hstep.
  - rewrite startSession_begin_eq. intros c. fields. intros Hc. injection Hc as <-.
    rewrite lookup_app_l by (rewrite length_app; simpl; lia).
    now rewrite lookup_snoc_new.
  - apply (input_rate_frame s); [reflexivity| |exact Hinv].
    intros c. rewrite cleanup_eq. fields. apply closed_contexts_rate.
  - apply (input_rate_frame s); [reflexivity| |exact Hinv].
    intros c. rewrite cleanup_eq. fields. apply closed_contexts_rate.
  - now apply (input_rate_frame s).
  - apply (input_rate_frame s); [reflexivity| |exact Hinv].
    intros c. rewrite startSession_denied_eq. fields. apply closed_contexts_rate.
  - match goal with |- input_rate (onopen ?i ?s0) =>
      destruct (onopen_fields i s0) as (_ & _ & _ & Hc & _ & Hi & _) end.
    apply (input_rate_frame s); [exact Hi| |exact Hinv]. intros c. now rewrite Hc.
  - destruct (onmessage_fields now audioBuffer msg s) as (_ & Hc & _ & _ & Hi & _).
    apply (input_rate_frame s); [exact Hi| |exact Hinv]. intros c. now rewrite Hc.
  - now apply (input_rate_frame s).
  - apply (input_rate_frame s); [reflexivity| |exact Hinv].
    intros c. rewrite onerror_eq. fields. apply closed_contexts_rate.
  - destruct (onaudioprocess_fields p inputBuffer s) as (_ & _ & Hc & _ & _ & Hi & _).
    apply (input_rate_frame s); [exact Hi| |exact Hinv]. intros c. now rewrite Hc.
  - match goal with |- input_rate (onended ?n ?s0) =>
      destruct (onended_eq n s0) as (talking & ->) end.
    now apply (input_rate_frame s).
Qed.

Lemma processors_shape_frame (s s' : State) :
  (forall p processor,
     processors s' !! p = Some processor ->
     (exists processor0,
        processors s !! p = Some processor0
        /\ bufferSize processor = bufferSize processor0
        /\ numberOfInputChannels processor = numberOfInputChannels processor0
        /\ numberOfOutputChannels processor = numberOfOutputChannels processor0)
     \/ (bufferSize processor = 4096%nat
         /\ numberOfInputChannels processor = 1%nat
         /\ numberOfOutputChannels processor = 1%nat)) ->
  processors_shape s -> processors_shape s'.
Proof.
  intros Hp Hinv p processor Hl.
  destruct (Hp p processor Hl) as [(processor0 & H0 & -> & -> & ->)|Hnew].
  - exact (Hinv p processor0 H0).
  - exact Hnew.
Qed.

Lemma processors_shape_same (s s' : State) :
  processors s' = processors s -> processors_shape s -> processors_shape s'.
Proof. intros Hp Hinv p processor. rewrite Hp. apply Hinv. Qed.

Lemma processors_shape_disconnected (s s' : State) :
  processors s' = on_ref (set_toDestination false) (processorRef s) (processors s) ->
  processors_shape s -> processors_shape s'.
Proof.
  intros Hp. apply processors_shape_frame. intros p processor Hl. left.
  rewrite Hp in Hl. apply on_ref_cases in Hl.
  destruct Hl as (processor0 & H0 & [-> | ->]); exists processor0; auto.
Qed.

Lemma steps_processors_shape s ev s' :
  steps s ev s' -> processors_shape s -> processors_shape s'.
Proof.
  intros Hstep Hinv. destruct Hstep.
  - now apply (processors_shape_same s).
  - now apply (processors_shape_disconnected s).
  - now apply (processors_shape_disconnected s).
  - now apply (processors_shape_same s).
  - now apply (processors_shape_disconnected s).
  - match goal with |- processors_shape (onopen ?i ?s0) =>
      destruct (onopen_fields i s0) as (_ & _ & _ & _ & _ & _ & _ & Hp) end.
    apply (processors_shape_frame s); [|exact Hinv].
    intros p processor Hl. destruct (Hp p processor Hl) as [Hold|Hnew]; [left|now right].
    exists processor. fields. auto.
  - destruct (onmessage_fields now audioBuffer msg s) as (_ & _ & Hp & _).
    now apply (processors_shape_same s).
  - now apply (processors_shape_same s).
  - now apply (processors_shape_disconnected s).
  - destruct (onaudioprocess_fields p inputBuffer s) as (_ & _ & _ & Hp & _).
    now apply (processors_shape_same s).
  - match goal with |- processors_shape (onended ?n ?s0) =>
      destruct (onended_eq n s0) as (talking & ->) end.
    now apply (processors_shape_same s).
Qed.

Lemma frames_full_frame (s s' : State) :
  (forall i x' blob,
     sessions s' !! i = Some x' -> In blob (sent x') ->
     (exists x, sessions s !! i = Some x /\ In blob (sent x))
     \/ length (frame blob) = 4096%nat) ->
  frames_full s -> frames_full s'.
Proof.
  intros Hs Hinv i x' blob Hx' Hb.
  destruct (Hs i x' blob Hx' Hb) as [(x & Hx & Hin)|Hnew].
  - exact (Hinv i x blob Hx Hin).
  - exact Hnew.
Qed.

Lemma frames_full_same (s s' : State) :
  sessions s' = sessions s -> frames_full s -> frames_full s'.
Proof. intros Hs Hinv i x blob. rewrite Hs. apply Hinv. Qed.

(** A method that leaves [sent] alone keeps the frames. *)
Lemma frames_full_altered (s s' : State) (f : Session -> Session) (i : nat) :
  (forall x, sent (f x) = sent x) ->
  sessions s' = alter f i (sessions s) ->
  frames_full s -> frames_full s'.
Proof.
  intros Hf Hs. apply frames_full_frame. intros j x' blob Hx' Hb. left.
  rewrite Hs in Hx'. apply lookup_alter_cases in Hx'.
  destruct Hx' as (x & Hx & [-> | ->]); exists x; [auto|].
  rewrite Hf in Hb. auto.
Qed.

Lemma frames_full_closed (s s' : State) :
  sessions s' = on_ref request_close (sessionRef s) (sessions s) ->
  frames_full s -> frames_full s'.
Proof.
  intros Hs. destruct (sessionRef s) as [i|]; simpl in Hs.
  - now apply (frames_full_altered s s' request_close i).
  - now apply frames_full_same.
Qed.

Lemma steps_frames_full s ev s' :
  steps s ev s' -> processors_shape s -> frames_full s -> frames_full s'.
Proof.
  intros Hstep Hshape Hinv. destruct Hstep.
  - now apply (frames_full_same s).
  - now apply (frames_full_closed s).
  - now apply (frames_full_closed s).
  - apply (frames_full_frame s); [|exact Hinv].
    rewrite startSession_granted_eq. fields. intros i x' blob Hx' Hb.
    apply lookup_app_Some in Hx'. destruct Hx' as [Hx'|[_ Hx']]; [left; eauto|].
    destruct (i - length (sessions s))%nat; [|discriminate].
    injection Hx' as <-. destruct Hb.
  - now apply (frames_full_closed s).
  - match goal with |- frames_full (onopen ?i ?s0) =>
      destruct (onopen_fields i s0) as (_ & _ & Hs & _) end.
    fields.
    now apply (frames_full_altered s _
                 (set_status (if closeRequested x then closing else opened)) i).
  - destruct (onmessage_fields now audioBuffer msg s) as (Hs & _).
    now apply (frames_full_same s).
  - now apply (frames_full_altered s _ (set_status closed_) i).
  - now apply (frames_full_closed s).
  - destruct (Hshape p processor H) as (Hsize & Hin & _).
    destruct (well_shaped_channel processor inputBuffer Hin H1) as (inputData & Hd & Hlen).
    rewrite (onaudioprocess_eq p inputBuffer s processor inputData H Hd).
    apply (frames_full_frame s); [|exact Hinv]. fields.
    intros i x' blob Hx' Hb. apply lookup_alter_cases in Hx'.
    destruct Hx' as (x & Hx & [-> | ->]); [left; eauto|].
    unfold sendRealtimeInput in Hb. destruct (status x); try (left; eauto; fail).
    simpl in Hb. apply in_app_or in Hb. destruct Hb as [Hb|[<-|[]]]; [left; eauto|].
    right. simpl. congruence.
  - match goal with |- frames_full (onended ?n ?s0) =>
      destruct (onended_eq n s0) as (talking & ->) end.
    now apply (frames_full_same s).
Qed.

Lemma init_invariant : invariant init.
Proof.
  unfold invariant, covers, contexts_set, input_rate, processors_shape, frames_full.
  simpl. split; [|split; [|split; [|split]]].
  - intros n node Hn. discriminate.
  - intros [H|H]; lia.
  - intros c Hc. discriminate.
  - intros p processor Hp. discriminate.
  - intros i x blob Hx. discriminate.
Qed.

Lemma step_invariant ev s s' : step ev s = Some s' -> invariant s -> invariant s'.
Proof.
  intros Hstep (Hc & Hs & Hr & Hp & Hf). apply step_steps in Hstep.
  split; [|split; [|split; [|split]]].
  - exact (steps_covers _ _ _ Hstep Hc).
  - exact (steps_contexts_set _ _ _ Hstep Hs).
  - exact (steps_input_rate _ _ _ Hstep Hr).
  - exact (steps_processors_shape _ _ _ Hstep Hp).
  - exact (steps_frames_full _ _ _ Hstep Hp Hf).
Qed.

Lemma run_invariant trace : forall s s', run trace s = Some s' -> invariant s -> invariant s'.
Proof.
  induction trace as [|ev rest IH]; intros s s' Hrun Hinv; simpl in Hrun.
  - apply some_eq in Hrun. now subst s'.
  - destruct (step ev s) as [s1|] eqn:Hstep; [|discriminate].
    exact (IH s1 s' Hrun (step_invariant ev s s1 Hstep Hinv)).
Qed.

Lemma reachable_invariant s : reachable s -> invariant s.
Proof. intros [trace Hrun]. exact (run_invariant trace init s Hrun init_invariant). Qed.

(** ** Interruption *)

Lemma session_exists (s : State) (i : nat) (x : Session) :
  sessions s !! i = Some x -> (0 < length (sessions s))%nat.
Proof. intros H. apply lookup_lt_Some in H. lia. Qed.


(** ** The microphone frames *)

(** C5.  In every reachable state: the input context that the ref holds
    has a sample rate of 16000; every script processor has a buffer of
    4096 samples, one input and one output channel; [onopen] attaches
    such a processor to a source node on the session's microphone stream;
    an audio-process event sends the blob made from channel 0, which has
    4096 samples, to the processor's session, once; and every frame that
    any session was sent has 4096 samples. *)
Theorem microphone_frames (s : State) :
  reachable s ->
  (forall c, inputContextRef s = Some c -> sampleRate <$> contexts s !! c = Some 16000)
  /\ (forall p processor, processors s !! p = Some processor ->
        bufferSize processor = 4096%nat
        /\ numberOfInputChannels processor = 1%nat
        /\ numberOfOutputChannels processor = 1%nat)
  /\ (forall i s', step (SessionOpen i) s = Some s' ->
        exists x ctx,
          sessions s !! i = Some x
          /\ inputContextRef s = Some ctx
          /\ processorRef s' = Some (length (processors s))
          /\ sourceRef s' = Some (length (micSources s))
          /\ processors s' !! length (processors s) =
               Some {| sp_context := ctx; bufferSize := 4096;
                       numberOfInputChannels := 1; numberOfOutputChannels := 1;
                       sp_session := i; sp_toDestination := true |}
          /\ micSources s' !! length (micSources s) =
               Some {| mss_context := ctx; mss_stream := sess_stream x;
                       mss_outputs := [length (processors s)] |})
  /\ (forall p inputBuffer s', step (AudioProcess p inputBuffer) s = Some s' ->
        exists processor inputData,
          processors s !! p = Some processor
          /\ inputBuffer !! 0%nat = Some inputData
          /\ length inputData = 4096%nat
          /\ length (frame (createPcmBlob inputData)) = 4096%nat
          /\ s' = set_sessions
                    (alter (sendRealtimeInput (createPcmBlob inputData))
                       (sp_session processor) (sessions s)) s
          /\ (forall x, sessions s !! sp_session processor = Some x ->
                status x = opened ->
                sent <$> sessions s' !! sp_session processor
                = Some (sent x ++ [createPcmBlob inputData])))
  /\ (forall i x blob, sessions s !! i = Some x -> In blob (sent x) ->
        length (frame blob) = 4096%nat).
Proof.
  intros Hreach.
  destruct (reachable_invariant s Hreach) as (_ & Hset & Hrate & Hshape & Hfull).
  split; [exact Hrate|]. split; [exact Hshape|]. split; [|split; [|exact Hfull]].
  - intros i s' Hstep. apply step_steps in Hstep.
    inversion Hstep as [| | | | |j x Hx Hst| | | | |]; subst.
    destruct (Hset (or_intror (session_exists s i x Hx))) as [_ [ctx Hctx]].
    exists x, ctx. split; [exact Hx|]. split; [exact Hctx|].
    rewrite (onopen_eq i _ ctx
               (set_status (if closeRequested x then closing else opened) x)).
    + fields. repeat split; try reflexivity; apply lookup_snoc_new.
    + exact Hctx.
    + fields. now rewrite list_lookup_alter_eq, Hx.
  - intros p inputBuffer s' Hstep. apply step_steps in Hstep.
    inversion Hstep as [| | | | | | | | |q processor buf Hp Hdest Hw|]; subst.
    destruct (Hshape p processor Hp) as (Hsize & Hin & _).
    destruct (well_shaped_channel processor inputBuffer Hin Hw) as (inputData & Hd & Hlen).
    exists processor, inputData.
    split; [exact Hp|]. split; [exact Hd|]. split; [congruence|].
    split; [simpl; congruence|].
    split; [exact (onaudioprocess_eq p inputBuffer s processor inputData Hp Hd)|].
    intros x Hx Hopen.
    rewrite (onaudioprocess_eq p inputBuffer s processor inputData Hp Hd). fields.
    rewrite list_lookup_alter_eq, Hx. simpl. unfold sendRealtimeInput.
    now rewrite Hopen.
Qed.

(** ** The theorems at the sample runs *)

Example connect_trace_runs :
  run connect_trace init = Some (after connect_trace)
  /\ connected (after connect_trace) = true
  /\ open_sessions (sessions (after connect_trace)) = 1%nat.
Proof. vm_compute. repeat split; reflexivity. Qed.

Example speak_trace_runs :
  run speak_trace init = Some (after speak_trace)
  /\ isTalking (after speak_trace) = true
  /\ nextStartTimeRef (after speak_trace) = (3 # 2)%Q.
Proof. vm_compute. repeat split; reflexivity. Qed.

Lemma cleanup_idle_witness :
  connected (cleanup (after speak_trace)) = false
  /\ exists node',
       bufferSources (cleanup (after speak_trace)) !! 0%nat = Some node'
       /\ stopped node' = true.
Proof.
  split; [exact (proj1 (cleanup_idle (after speak_trace)))|].
  refine (proj2 (proj2 (proj2 (proj2 (proj2 (proj2 (proj2 (proj2
            (cleanup_idle (after speak_trace))))))))) 0%nat _ _ _).
  - apply (bool_decide_unpack _). vm_compute. exact I.
  - vm_compute. reflexivity.
Defined.



Lemma microphone_frames_witness :
  exists x blob,
    sessions (after capture_trace) !! 0%nat = Some x
    /\ sent x = [blob]
    /\ length (frame blob) = 4096%nat.
Proof.
  assert (Hx : exists x blob,
             sessions (after capture_trace) !! 0%nat = Some x /\ sent x = [blob]).
  { eexists _, _. split; vm_compute; reflexivity. }
  destruct Hx as (x & blob & Hx & Hsent).
  assert (Hreach : reachable (after capture_trace)).
  { exists capture_trace. vm_compute. reflexivity. }
  exists x, blob. split; [exact Hx|]. split; [exact Hsent|].
  apply (proj2 (proj2 (proj2 (proj2
            (microphone_frames (after capture_trace) Hreach)))) 0%nat x blob Hx).
  rewrite Hsent. now left.
Defined.

(** ** Further invariants of the live session *)

Lemma onopen_more (i : nat) (s : State) :
  isTalking (onopen i s) = isTalking s
  /\ nextStartTimeRef (onopen i s) = nextStartTimeRef s
  /\ streams (onopen i s) = streams s
  /\ streamRef (onopen i s) = streamRef s
  /\ sessionRef (onopen i s) = sessionRef s
  /\ (length (processors s) <= length (processors (onopen i s)))%nat
  /\ (forall p, processors s !! p = None \/ processors (onopen i s) !! p = processors s !! p)
  /\ (processorRef (onopen i s) = processorRef s
      \/ processorRef (onopen i s) = Some (length (processors s))).
Proof.
  destruct (inputContextRef s) as [ctx|] eqn:Hi.
  - destruct (sessions s !! i) as [x|] eqn:Hx.
    + rewrite (onopen_eq i s ctx x Hi Hx). fields. repeat split; try reflexivity.
      * rewrite length_app. lia.
      * intros p. destruct (processors s !! p) eqn:Hp; [right|now left].
        now apply lookup_app_l_Some.
      * now right.
    + rewrite (onopen_stuck i s (or_intror Hx)). fields.
      repeat split; try reflexivity; auto.
  - rewrite (onopen_stuck i s (or_introl Hi)). fields.
    repeat split; try reflexivity; auto.
Qed.

Lemma onaudioprocess_more (p : nat) (inputBuffer : list (list Q)) (s : State) :
  isTalking (onaudioprocess p inputBuffer s) = isTalking s
  /\ nextStartTimeRef (onaudioprocess p inputBuffer s) = nextStartTimeRef s
  /\ streams (onaudioprocess p inputBuffer s) = streams s
  /\ streamRef (onaudioprocess p inputBuffer s) = streamRef s
  /\ processorRef (onaudioprocess p inputBuffer s) = processorRef s
  /\ sessionRef (onaudioprocess p inputBuffer s) = sessionRef s.
Proof.
  unfold onaudioprocess.
  destruct (processors s !! p), (inputBuffer !! 0%nat); fields; repeat split.
Qed.

(** What a message does to the schedule: nothing, one more source, or a
    cleared schedule, with or without one more node in the store. *)
Lemma onmessage_schedule (now : Q) (audioBuffer : AudioBuffer) (msg : LiveServerMessage)
    (s : State) (ctx : nat) :
  audioContextRef s = Some ctx ->
  let s' := onmessage now audioBuffer msg s in
  let node := {| bs_context := ctx; buffer := Some audioBuffer;
                 startTime := Some (Qmax (nextStartTimeRef s) now);
                 stopped := false; ended := false |} in
  (has_audio msg = false /\ is_interrupted msg = false /\ s' = s)
  \/ (has_audio msg = true /\ is_interrupted msg = false
      /\ bufferSources s' = bufferSources s ++ [node]
      /\ sourcesRef s' = sourcesRef s ∪ {[length (bufferSources s)]}
      /\ nextStartTimeRef s' = (Qmax (nextStartTimeRef s) now + duration audioBuffer)%Q
      /\ isTalking s' = true)
  \/ (is_interrupted msg = true
      /\ sourcesRef s' = ∅ /\ nextStartTimeRef s' = 0%Q /\ isTalking s' = false
      /\ (has_audio msg = false /\
            bufferSources s' = stop_sources (sourcesRef s) (bufferSources s)
          \/ has_audio msg = true /\
            bufferSources s' =
              stop_sources (sourcesRef s ∪ {[length (bufferSources s)]})
                (bufferSources s ++ [node]))).
Proof.
  intros Hctx s' node. subst s'. unfold onmessage.
  rewrite (onmessage_audio_eq s now audioBuffer ctx Hctx).
  destruct (has_audio msg), (is_interrupted msg);
    rewrite ?onmessage_interrupted_eq; fields.
  - right. right. repeat split. right. split; reflexivity.
  - right. left. repeat split.
  - right. right. repeat split. left. split; reflexivity.
  - left. repeat split.
Qed.

Lemma onmessage_more (now : Q) (audioBuffer : AudioBuffer) (msg : LiveServerMessage)
    (s : State) :
  streams (onmessage now audioBuffer msg s) = streams s
  /\ streamRef (onmessage now audioBuffer msg s) = streamRef s
  /\ processorRef (onmessage now audioBuffer msg s) = processorRef s
  /\ sessionRef (onmessage now audioBuffer msg s) = sessionRef s.
Proof.
  destruct (onmessage_cases now audioBuffer msg s) as [(_ & _ & ->)|(s1 & Hs1 & ->)].
  - fields. repeat split.
  - assert (H1 : streams s1 = streams s /\ streamRef s1 = streamRef s
                 /\ processorRef s1 = processorRef s /\ sessionRef s1 = sessionRef s).
    { destruct Hs1 as [[_ ->]|[_ Hs1]]; [repeat split|].
      destruct (audioContextRef s) as [ctx|] eqn:Hctx.
      - rewrite (onmessage_audio_eq s now audioBuffer ctx Hctx) in Hs1.
        apply some_eq in Hs1. subst s1. fields. repeat split.
      - rewrite (onmessage_audio_stuck s now audioBuffer Hctx) in Hs1. discriminate. }
    destruct (is_interrupted msg); [|exact H1].
    rewrite onmessage_interrupted_eq. fields. exact H1.
Qed.

Lemma sounding_new ctx audioBuffer t :
  sounding {| bs_context := ctx; buffer := Some audioBuffer; startTime := Some t;
              stopped := false; ended := false |} = true.
Proof. reflexivity. Qed.

Lemma scheduled_sound_frame (s s' : State) :
  bufferSources s' = bufferSources s -> sourcesRef s' = sourcesRef s ->
  scheduled_sound s -> scheduled_sound s'.
Proof. intros Hb Hs H n. rewrite Hb, Hs. apply H. Qed.

Lemma scheduled_sound_cleared (s' : State) :
  sourcesRef s' = ∅ -> scheduled_sound s'.
Proof. intros Hs n. rewrite Hs. intros Hn. now apply not_elem_of_empty in Hn. Qed.

Lemma steps_scheduled_sound s ev s' :
  steps s ev s' -> contexts_set s -> scheduled_sound s -> scheduled_sound s'.
Proof.
  intros Hstep Hset Hinv. destruct Hstep.
  - now apply (scheduled_sound_frame s).
  - now apply scheduled_sound_cleared.
  - now apply scheduled_sound_cleared.
  - now apply (scheduled_sound_frame s).
  - now apply scheduled_sound_cleared.
  - match goal with |- scheduled_sound (onopen ?i ?s0) =>
      destruct (onopen_fields i s0) as (Hb & Hs & _) end.
    apply (scheduled_sound_frame s); [exact Hb|exact Hs|exact Hinv].
  - destruct (Hset (or_intror (session_exists s i x H))) as [[ctx Hctx] _].
    destruct (onmessage_schedule now audioBuffer msg s ctx Hctx)
      as [(_ & _ & ->)|[(_ & _ & Hb & Hs & _)|(_ & Hs & _)]].
    + exact Hinv.
    + intros n. rewrite Hb, Hs. intros Hn. apply elem_of_union in Hn.
      destruct Hn as [Hn|Hn].
      * destruct (Hinv n Hn) as (node & Hnode & Hsound).
        exists node. split; [now apply lookup_app_l_Some|exact Hsound].
      * apply elem_of_singleton in Hn. subst n. eexists.
        split; [apply lookup_snoc_new|reflexivity].
    + now apply scheduled_sound_cleared.
  - now apply (scheduled_sound_frame s).
  - now apply scheduled_sound_cleared.
  - destruct (onaudioprocess_fields p inputBuffer s) as (Hb & Hs & _).
    now apply (scheduled_sound_frame s).
  - match goal with |- scheduled_sound (onended ?n ?s0) =>
      destruct (onended_eq n s0) as (talking & ->) end.
    intros k. fields. intros Hk. apply elem_of_difference in Hk.
    destruct Hk as [Hk Hne]. rewrite elem_of_singleton in Hne.
    destruct (Hinv k Hk) as (nodek & Hnodek & Hsound).
    exists nodek. split; [|exact Hsound].
    now rewrite list_lookup_alter_ne by congruence.
Qed.

Lemma union_singleton_not_empty (X : gset nat) (k : nat) : X ∪ {[k]} <> ∅.
Proof.
  intros Heq. apply (not_elem_of_empty (C := gset nat) k).
  rewrite <- Heq. apply elem_of_union_r. now apply elem_of_singleton.
Qed.

Lemma talking_frame (s s' : State) :
  isTalking s' = isTalking s -> sourcesRef s' = sourcesRef s ->
  talking_while_scheduled s -> talking_while_scheduled s'.
Proof. unfold talking_while_scheduled. intros -> ->. auto. Qed.

Lemma talking_cleared (s' : State) :
  isTalking s' = false -> sourcesRef s' = ∅ -> talking_while_scheduled s'.
Proof.
  unfold talking_while_scheduled. intros -> ->.
  now rewrite bool_decide_eq_true_2.
Qed.

Lemma steps_talking s ev s' :
  steps s ev s' -> contexts_set s ->
  talking_while_scheduled s -> talking_while_scheduled s'.
Proof.
  intros Hstep Hset Hinv. destruct Hstep.
  - now apply (talking_frame s).
  - now apply talking_cleared.
  - now apply talking_cleared.
  - now apply (talking_frame s).
  - now apply talking_cleared.
  - match goal with |- talking_while_scheduled (onopen ?i ?s0) =>
      destruct (onopen_fields i s0) as (_ & Hs & _);
      destruct (onopen_more i s0) as (Ht & _) end.
    apply (talking_frame s); [exact Ht|exact Hs|exact Hinv].
  - destruct (Hset (or_intror (session_exists s i x H))) as [[ctx Hctx] _].
    destruct (onmessage_schedule now audioBuffer msg s ctx Hctx)
      as [(_ & _ & ->)|[(_ & _ & _ & Hs & _ & Ht)|(_ & Hs & _ & Ht & _)]].
    + exact Hinv.
    + unfold talking_while_scheduled. rewrite Ht, Hs.
      rewrite bool_decide_eq_false_2; [reflexivity|]. apply union_singleton_not_empty.
    + now apply talking_cleared.
  - now apply (talking_frame s).
  - now apply talking_cleared.
  - destruct (onaudioprocess_fields p inputBuffer s) as (_ & Hs & _).
    destruct (onaudioprocess_more p inputBuffer s) as (Ht & _).
    now apply (talking_frame s).
  - unfold talking_while_scheduled in *. unfold onended. cbv zeta. fields.
    destruct (bool_decide (size (sourcesRef s ∖ {[n]}) = 0%nat)) eqn:Hsize; fields.
    + apply bool_decide_eq_true_1, size_empty_iff in Hsize.
      rewrite bool_decide_eq_true_2; [reflexivity|].
      now apply leibniz_equiv.
    + apply bool_decide_eq_false_1 in Hsize.
      assert (Hne : sourcesRef s ∖ {[n]} <> ∅).
      { intros Heq. apply Hsize. rewrite Heq. apply size_empty. }
      rewrite (bool_decide_eq_false_2 _ Hne). rewrite Hinv.
      rewrite bool_decide_eq_false_2; [reflexivity|].
      intros Heq. apply Hne. rewrite Heq. apply leibniz_equiv.
      intros k. split; intros Hk; [|now apply not_elem_of_empty in Hk].
      apply elem_of_difference in Hk. now destruct Hk.
Qed.

Lemma run_invariants (trace : list Event) :
  forall s s',
    run trace s = Some s' ->
    invariant s /\ scheduled_sound s /\ talking_while_scheduled s ->
    invariant s' /\ scheduled_sound s' /\ talking_while_scheduled s'.
Proof.
  induction trace as [|ev rest IH]; intros s s' Hrun Hinv; simpl in Hrun.
  - apply some_eq in Hrun. now subst s'.
  - destruct (step ev s) as [s1|] eqn:Hstep; [|discriminate].
    apply (IH s1 s' Hrun). destruct Hinv as (Hi & Hs & Ht).
    pose proof (proj1 (proj2 Hi)) as Hset.
    split; [exact (step_invariant ev s s1 Hstep Hi)|].
    apply step_steps in Hstep. split.
    + exact (steps_scheduled_sound _ _ _ Hstep Hset Hs).
    + exact (steps_talking _ _ _ Hstep Hset Ht).
Qed.

Lemma reachable_invariants (s : State) :
  reachable s -> invariant s /\ scheduled_sound s /\ talking_while_scheduled s.
Proof.
  intros [trace Hrun]. apply (run_invariants trace init s Hrun).
  split; [exact init_invariant|]. split.
  - intros n Hn. now apply not_elem_of_empty in Hn.
  - reflexivity.
Qed.

(** X17.  In every reachable state the set of scheduled sources holds
    exactly the nodes that can still be heard: a node is in the set if
    and only if it was started and is neither stopped nor ended.  A
    stopped or ended node is never left in the set, and no node that
    plays is missing from it. *)
Theorem scheduled_exactly_sounding (s : State) (n : nat) :
  reachable s ->
  n ∈ sourcesRef s <->
  exists node, bufferSources s !! n = Some node /\ sounding node = true.
Proof.
  intros Hreach.
  destruct (reachable_invariants s Hreach) as ((Hc & _) & Hs & _).
  split; [apply Hs|].
  intros (node & Hnode & Hsound). exact (Hc n node Hnode Hsound).
Qed.

Lemma scheduled_exactly_sounding_witness :
  0%nat ∈ sourcesRef (after speak_trace).
Proof.
  apply (scheduled_exactly_sounding (after speak_trace) 0).
  - exists speak_trace. vm_compute. reflexivity.
  - eexists. split; vm_compute; reflexivity.
Defined.



(** ** The schedule never overlaps *)







(** ** Sessions when the starts do not overlap *)

Lemma open_le_active (xs : list Session) :
  (open_sessions xs <= active_sessions xs)%nat.
Proof.
  induction xs as [|x rest IH]; simpl; [lia|].
  unfold is_open, is_active. destruct (status x); lia.
Qed.

Lemma active_app (xs ys : list Session) :
  active_sessions (xs ++ ys) = (active_sessions xs + active_sessions ys)%nat.
Proof. induction xs as [|x rest IH]; simpl; [reflexivity|]. rewrite IH. lia. Qed.

(** A method that wakes no session up does not raise the count. *)
Lemma active_alter (f : Session -> Session) (i : nat) (xs : list Session) :
  (forall x, is_active (f x) = true -> is_active x = true) ->
  (active_sessions (alter f i xs) <= active_sessions xs)%nat.
Proof.
  intros Hf. revert i. induction xs as [|x rest IH]; intros i; [simpl; lia|].
  destruct i as [|i]; simpl.
  - specialize (Hf x).
    destruct (is_active (f x)), (is_active x);
      first [lia | discriminate (Hf eq_refl)].
  - specialize (IH i). simpl in IH. change (list_alter f i rest) with (alter f i rest).
    lia.
Qed.

Lemma active_on_ref (f : Session -> Session) ref (xs : list Session) :
  (forall x, is_active (f x) = true -> is_active x = true) ->
  (active_sessions (on_ref f ref xs) <= active_sessions xs)%nat.
Proof. intros Hf. destruct ref; [now apply active_alter|simpl; lia]. Qed.

Lemma request_close_calm x : is_active (request_close x) = true -> is_active x = true.
Proof. unfold is_active, request_close. simpl. now destruct (status x). Qed.

Lemma sendRealtimeInput_calm b x :
  is_active (sendRealtimeInput b x) = true -> is_active x = true.
Proof.
  unfold is_active, sendRealtimeInput.
  destruct (status x) eqn:Hst; simpl; rewrite ?Hst; auto.
Qed.

(** A session that leaves [connecting] was counted before. *)
Lemma active_opened (i : nat) (x : Session) (st : SessionStatus) (xs : list Session) :
  xs !! i = Some x -> is_active x = true ->
  (active_sessions (alter (set_status st) i xs) <= active_sessions xs)%nat.
Proof.
  revert i. induction xs as [|y rest IH]; intros i Hx Hact; [discriminate|].
  destruct i as [|i]; simpl in *.
  - injection Hx as ->. rewrite Hact. destruct (is_active (set_status st x)); lia.
  - specialize (IH i Hx Hact). change (list_alter (set_status st) i rest)
      with (alter (set_status st) i rest). lia.
Qed.

Lemma active_closed (i : nat) (xs : list Session) :
  (active_sessions (alter (set_status closed_) i xs) <= active_sessions xs)%nat.
Proof. apply active_alter. intros x. unfold is_active. simpl. discriminate. Qed.

Lemma steps_busy s ev s' :
  steps s ev s' -> ev <> ClickStart -> (busy s' <= busy s)%nat.
Proof.
  intros Hstep Hev. unfold busy. destruct Hstep.
  - congruence.
  - rewrite cleanup_eq. fields.
    pose proof (active_on_ref request_close (sessionRef s) (sessions s) request_close_calm).
    lia.
  - rewrite cleanup_eq. fields.
    pose proof (active_on_ref request_close (sessionRef s) (sessions s) request_close_calm).
    lia.
  - rewrite startSession_granted_eq. fields. rewrite active_app. simpl. lia.
  - rewrite startSession_denied_eq. fields.
    pose proof (active_on_ref request_close (sessionRef s) (sessions s) request_close_calm).
    lia.
  - match goal with |- context [onopen ?i ?s0] =>
      destruct (onopen_fields i s0) as (_ & _ & Hs & _ & _ & _ & Hp & _) end.
    rewrite Hs, Hp. fields.
    assert (Hact : is_active x = true) by (unfold is_active; now rewrite H0).
    pose proof (active_opened i x (if closeRequested x then closing else opened)
                  (sessions s) H Hact).
    lia.
  - destruct (onmessage_fields now audioBuffer msg s) as (Hs & _ & _ & _ & _ & Hp).
    rewrite Hs, Hp. lia.
  - unfold onclose. fields. pose proof (active_closed i (sessions s)). lia.
  - rewrite onerror_eq. fields.
    pose proof (active_on_ref request_close (sessionRef s) (sessions s) request_close_calm).
    lia.
  - destruct (onaudioprocess_fields p inputBuffer s) as (_ & _ & _ & _ & _ & _ & Hp & _).
    rewrite Hp. unfold onaudioprocess. destruct (processors s !! p), (inputBuffer !! 0%nat);
      fields; try lia.
    pose proof (active_alter (sendRealtimeInput (createPcmBlob l)) (sp_session s0)
                  (sessions s) (sendRealtimeInput_calm _)).
    lia.
  - match goal with |- context [onended ?n ?s0] =>
      destruct (onended_eq n s0) as (talking & ->) end.
    fields. lia.
Qed.

Lemma run_apart_busy (trace : list Event) :
  forall s s', run_apart trace s = Some s' -> (busy s <= 1)%nat ->
               (busy s' <= 1)%nat /\ run trace s = Some s'.
Proof.
  induction trace as [|ev rest IH]; intros s s' Hrun Hbusy; simpl in Hrun.
  - apply some_eq in Hrun. subst s'. auto.
  - destruct (match ev with ClickStart => at_rest s | _ => true end) eqn:Hallowed;
      [|discriminate].
    destruct (step ev s) as [s1|] eqn:Hstep; [|discriminate].
    assert (H1 : (busy s1 <= 1)%nat).
    { assert (Hev : ev = ClickStart \/ ev <> ClickStart)
        by (destruct ev; first [left; reflexivity | right; discriminate]).
      destruct Hev as [->|Hne].
      - unfold at_rest in Hallowed. apply andb_true_iff in Hallowed.
        destruct Hallowed as [Hp Ha]. apply Nat.eqb_eq in Hp, Ha.
        simpl in Hstep. destruct (connected s); [discriminate|].
        apply some_eq in Hstep. subst s1.
        unfold busy. rewrite startSession_begin_eq. fields. lia.
      - apply step_steps in Hstep. pose proof (steps_busy s ev s1 Hstep Hne). lia. }
    destruct (IH s1 s' Hrun H1) as [Hb Hr]. split; [exact Hb|].
    simpl. now rewrite Hstep.
Qed.

(** X20.  When the start button is only clicked at rest, that is with
    no start under way and no session connecting or open, every state of
    the run has at most one open session, and at most one session that
    connects or is open. *)
Theorem one_session_when_starts_apart (trace : list Event) (s : State) :
  run_apart trace init = Some s ->
  run trace init = Some s
  /\ (open_sessions (sessions s) <= 1)%nat
  /\ (pendingMedia s + active_sessions (sessions s) <= 1)%nat.
Proof.
  intros Hrun.
  destruct (run_apart_busy trace init s Hrun) as [Hb Hr]; [unfold busy; simpl; lia|].
  split; [exact Hr|]. unfold busy in Hb.
  pose proof (open_le_active (sessions s)). lia.
Qed.

Lemma one_session_when_starts_apart_witness :
  run restart_trace init = Some (after restart_trace)
  /\ (open_sessions (sessions (after restart_trace)) <= 1)%nat.
Proof.
  destruct (one_session_when_starts_apart restart_trace (after restart_trace))
    as (Hr & Ho & _).
  - vm_compute. reflexivity.
  - split; assumption.
Defined.

(** ** What the refs let go of *)

Lemma steps_stream_let_go s ev s' (i : nat) :
  steps s ev s' -> stream_let_go i s ->
  stream_let_go i s' /\ streams s' !! i = streams s !! i.
Proof.
  intros Hstep [Hlt Href].
  assert (Hclean : forall (s0 : State),
            streams s0 = on_ref stop_tracks (streamRef s) (streams s) ->
            streamRef s0 = streamRef s ->
            stream_let_go i s0 /\ streams s0 !! i = streams s !! i).
  { intros s0 Hs Hr. unfold stream_let_go. rewrite Hs, Hr, on_ref_length.
    split; [auto|]. destruct (streamRef s) as [j|]; [|reflexivity]. simpl.
    apply list_lookup_alter_ne. congruence. }
  assert (Hsame : forall (s0 : State),
            streams s0 = streams s -> streamRef s0 = streamRef s ->
            stream_let_go i s0 /\ streams s0 !! i = streams s !! i).
  { intros s0 Hs Hr. unfold stream_let_go. rewrite Hs, Hr. auto. }
  destruct Hstep.
  - now apply Hsame.
  - now apply Hclean.
  - now apply Hclean.
  - rewrite startSession_granted_eq. unfold stream_let_go. fields.
    rewrite length_app. simpl. split; [split; [lia|]|].
    + intros Heq. apply some_eq in Heq. lia.
    + now apply lookup_app_l.
  - now apply Hclean.
  - match goal with |- context [onopen ?i ?s0] =>
      destruct (onopen_more i s0) as (_ & _ & Hs & Hr & _) end.
    now apply Hsame.
  - destruct (onmessage_more now audioBuffer msg s) as (Hs & Hr & _).
    now apply Hsame.
  - now apply Hsame.
  - now apply Hclean.
  - destruct (onaudioprocess_more p inputBuffer s) as (_ & _ & Hs & Hr & _).
    now apply Hsame.
  - match goal with |- context [onended ?n ?s0] =>
      destruct (onended_eq n s0) as (talking & ->) end.
    now apply Hsame.
Qed.

Lemma steps_processor_let_go s ev s' (p : nat) :
  steps s ev s' -> processor_let_go p s ->
  processor_let_go p s' /\ processors s' !! p = processors s !! p.
Proof.
  intros Hstep [Hlt Href].
  assert (Hclean : forall (s0 : State),
            processors s0 =
              on_ref (set_toDestination false) (processorRef s) (processors s) ->
            processorRef s0 = processorRef s ->
            processor_let_go p s0 /\ processors s0 !! p = processors s !! p).
  { intros s0 Hs Hr. unfold processor_let_go. rewrite Hs, Hr, on_ref_length.
    split; [auto|]. destruct (processorRef s) as [j|]; [|reflexivity]. simpl.
    apply list_lookup_alter_ne. congruence. }
  assert (Hsame : forall (s0 : State),
            processors s0 = processors s -> processorRef s0 = processorRef s ->
            processor_let_go p s0 /\ processors s0 !! p = processors s !! p).
  { intros s0 Hs Hr. unfold processor_let_go. rewrite Hs, Hr. auto. }
  destruct Hstep.
  - now apply Hsame.
  - now apply Hclean.
  - now apply Hclean.
  - now apply Hsame.
  - now apply Hclean.
  - match goal with |- context [onopen ?i ?s0] =>
      destruct (onopen_more i s0) as (_ & _ & _ & _ & _ & Hlen & Hkeep & Hr) end.
    fields. unfold processor_let_go. split; [split; [lia|]|].
    + destruct Hr as [-> | ->]; [exact Href|].
      intros Heq. apply some_eq in Heq. lia.
    + destruct (Hkeep p) as [Hnone|Hk]; [|exact Hk].
      apply lookup_ge_None in Hnone. lia.
  - destruct (onmessage_fields now audioBuffer msg s) as (_ & _ & Hs & _).
    destruct (onmessage_more now audioBuffer msg s) as (_ & _ & Hr & _).
    now apply Hsame.
  - now apply Hsame.
  - now apply Hclean.
  - destruct (onaudioprocess_fields p0 inputBuffer s) as (_ & _ & _ & Hs & _).
    destruct (onaudioprocess_more p0 inputBuffer s) as (_ & _ & _ & _ & Hr & _).
    now apply Hsame.
  - match goal with |- context [onended ?n ?s0] =>
      destruct (onended_eq n s0) as (talking & ->) end.
    now apply Hsame.
Qed.

Lemma run_let_go (trace : list Event) :
  forall s s',
    run trace s = Some s' ->
    (forall i, stream_let_go i s ->
       stream_let_go i s' /\ streams s' !! i = streams s !! i)
    /\ (forall p, processor_let_go p s ->
          processor_let_go p s' /\ processors s' !! p = processors s !! p).
Proof.
  induction trace as [|ev rest IH]; intros s s' Hrun; simpl in Hrun.
  - apply some_eq in Hrun. subst s'. split; auto.
  - destruct (step ev s) as [s1|] eqn:Hstep; [|discriminate].
    apply step_steps in Hstep. destruct (IH s1 s' Hrun) as [IHs IHp]. split.
    + intros i Hi. destruct (steps_stream_let_go s ev s1 i Hstep Hi) as [H1 E1].
      destruct (IHs i H1) as [H2 E2]. split; [exact H2|congruence].
    + intros p Hp. destruct (steps_processor_let_go s ev s1 p Hstep Hp) as [H1 E1].
      destruct (IHp p H1) as [H2 E2]. split; [exact H2|congruence].
Qed.

(** X21.  Only what the refs hold is ever released.  A microphone stream
    that the stream ref does not hold keeps its tracks as they are along
    every run, and a script processor that the processor ref does not
    hold keeps its connection to the destination: no later event stops
    the one or disconnects the other, and neither ref comes back to
    them. *)
Theorem let_go_is_never_released (trace : list Event) (s s' : State) :
  run trace s = Some s' ->
  (forall i, stream_let_go i s ->
     stream_let_go i s' /\ streams s' !! i = streams s !! i)
  /\ (forall p, processor_let_go p s ->
        processor_let_go p s' /\ processors s' !! p = processors s !! p).
Proof. apply run_let_go. Qed.

(** The stream and the processor of the first session of
    [Samples.restart_trace], once the second session has opened: after
    the call is ended and the second session closed, the track of the
    first stream is still live and the first processor still connected. *)
Lemma let_go_is_never_released_witness :
  run [ClickEnd; SessionClose 1] (Samples.after Samples.reopened_trace)
    = Some (Samples.after Samples.restart_trace)
  /\ stream_let_go 0 (Samples.after Samples.reopened_trace)
  /\ processor_let_go 0 (Samples.after Samples.reopened_trace)
  /\ tracks <$> streams (Samples.after Samples.restart_trace) !! 0%nat = Some [live]
  /\ sp_toDestination <$> processors (Samples.after Samples.restart_trace) !! 0%nat
     = Some true
  /\ connected (Samples.after Samples.restart_trace) = false.
Proof.
  assert (Hrun : run [ClickEnd; SessionClose 1] (Samples.after Samples.reopened_trace)
                 = Some (Samples.after Samples.restart_trace))
    by (vm_compute; reflexivity).
  assert (Hs : stream_let_go 0 (Samples.after Samples.reopened_trace))
    by (split; vm_compute; [lia|discriminate]).
  assert (Hp : processor_let_go 0 (Samples.after Samples.reopened_trace))
    by (split; vm_compute; [lia|discriminate]).
  destruct (let_go_is_never_released _ _ _ Hrun) as [Hstreams Hprocs].
  destruct (Hstreams 0%nat Hs) as [_ Es]. destruct (Hprocs 0%nat Hp) as [_ Ep].
  split; [exact Hrun|]. split; [exact Hs|]. split; [exact Hp|].
  split; [rewrite Es; vm_compute; reflexivity|].
  split; [rewrite Ep; vm_compute; reflexivity|].
  vm_compute; reflexivity.
Defined.

(** X22.  A start that is granted while the stream ref still holds a
    stream lets go of that stream as it is: whatever happens afterwards,
    its tracks stay as they were when the start was granted, and the ref
    does not come back to it. *)
Theorem earlier_stream_is_never_stopped (ntracks : nat) (trace : list Event)
    (s s1 s' : State) (j : nat) :
  streamRef s = Some j -> (j < length (streams s))%nat ->
  step (MediaGranted ntracks) s = Some s1 ->
  run trace s1 = Some s' ->
  streams s' !! j = streams s !! j /\ streamRef s' <> Some j.
Proof.
  intros Href Hlt Hstep Hrun.
  assert (H1 : stream_let_go j s1 /\ streams s1 !! j = streams s !! j).
  { apply step_steps in Hstep. inversion Hstep; subst.
    rewrite startSession_granted_eq. unfold stream_let_go. fields.
    rewrite length_app. simpl. split; [split; [lia|]|].
    - intros Heq. apply some_eq in Heq. lia.
    - now apply lookup_app_l. }
  destruct H1 as [Hgo E1].
  destruct (run_let_go trace s1 s' Hrun) as [Hstreams _].
  destruct (Hstreams j Hgo) as [[_ Hne] E2]. split; [congruence|exact Hne].
Qed.

Lemma earlier_stream_is_never_stopped_witness :
  streams (Samples.after Samples.restart_trace) !! 0%nat = Some {| tracks := [live] |}
  /\ streamRef (Samples.after Samples.restart_trace) <> Some 0%nat.
Proof.
  assert (Href : streamRef (Samples.after Samples.reclicked_trace) = Some 0%nat)
    by (vm_compute; reflexivity).
  assert (Hlt : (0 < length (streams (Samples.after Samples.reclicked_trace)))%nat)
    by (vm_compute; lia).
  assert (Hstep : step (MediaGranted 1) (Samples.after Samples.reclicked_trace)
                  = Some (Samples.after (Samples.reclicked_trace ++ [MediaGranted 1])))
    by (vm_compute; reflexivity).
  assert (Hrun : run [SessionOpen 1; ClickEnd; SessionClose 1]
                   (Samples.after (Samples.reclicked_trace ++ [MediaGranted 1]))
                 = Some (Samples.after Samples.restart_trace))
    by (vm_compute; reflexivity).
  destruct (earlier_stream_is_never_stopped 1 _ _ _ _ 0 Href Hlt Hstep Hrun) as [E Hne].
  split; [|exact Hne]. rewrite E. vm_compute. reflexivity.
Defined.

(** ** The refs are in place when the handlers need them *)



(** ** [cleanup] a second time *)

Lemma on_ref_again {A : Type} (f : A -> A) (r : option nat) (l : list A) :
  (forall a, f (f a) = f a) ->
  on_ref f r (on_ref f r l) = on_ref f r l.
Proof.
  intros Hf. destruct r as [i|]; [|reflexivity]. simpl. apply list_eq. intros j.
  destruct (decide (i = j)) as [->|Hne].
  - rewrite !list_lookup_alter_eq. destruct (l !! j); simpl; [now rewrite Hf|reflexivity].
  - now rewrite !list_lookup_alter_ne.
Qed.

Lemma on_ref_swap {A : Type} (f : A -> A) (r1 r2 : option nat) (l : list A) :
  on_ref f r1 (on_ref f r2 l) = on_ref f r2 (on_ref f r1 l).
Proof.
  destruct r1 as [i1|], r2 as [i2|]; try reflexivity. simpl.
  apply list_eq. intros j.
  destruct (decide (i1 = j)) as [->|H1], (decide (i2 = j)) as [->|H2];
    rewrite ?list_lookup_alter_eq, ?list_lookup_alter_ne by assumption;
    rewrite ?list_lookup_alter_eq, ?list_lookup_alter_ne by assumption;
    reflexivity.
Qed.

Lemma on_ref_twice {A : Type} (f : A -> A) (r1 r2 : option nat) (l : list A) :
  (forall a, f (f a) = f a) ->
  on_ref f r1 (on_ref f r2 (on_ref f r1 (on_ref f r2 l))) = on_ref f r1 (on_ref f r2 l).
Proof.
  intros Hf.
  rewrite (on_ref_swap f r2 r1 (on_ref f r2 l)).
  rewrite (on_ref_again f r1 _ Hf).
  now rewrite (on_ref_again f r2 _ Hf).
Qed.

Lemma stop_sources_empty (nodes : list BufferSource) : stop_sources ∅ nodes = nodes.
Proof.
  apply list_eq. intros j. rewrite stop_sources_lookup.
  destruct (nodes !! j); reflexivity.
Qed.

Lemma close_unless_closed_again (c : AudioContext) :
  close_unless_closed (close_unless_closed c) = close_unless_closed c.
Proof.
  unfold close_unless_closed. destruct (ctx_state c) eqn:Hc; rewrite ?Hc; reflexivity.
Qed.

Lemma stop_tracks_again (m : MediaStream) : stop_tracks (stop_tracks m) = stop_tracks m.
Proof. unfold stop_tracks. simpl. now rewrite map_map. Qed.

Lemma request_close_again (x : Session) : request_close (request_close x) = request_close x.
Proof. unfold request_close. simpl. destruct (status x); reflexivity. Qed.

(** X24.  [cleanup] run a second time changes nothing: every effect of
    the first run is guarded or repeats itself without change.  So End
    Call, a connection error and the unmount may follow one another
    directly.  With a context closed as soon as [close()] is called on
    it, as [close_context] has it, [close()] is called on no context a
    second time, and no source node is stopped again, the set being
    empty. *)
Theorem cleanup_again (s : State) : cleanup (cleanup s) = cleanup s.
Proof.
  rewrite (cleanup_eq (cleanup s)). rewrite !cleanup_eq. fields.
  rewrite (on_ref_twice close_unless_closed _ _ _ close_unless_closed_again).
  rewrite (on_ref_again stop_tracks _ _ stop_tracks_again).
  rewrite (on_ref_again disconnect_source _ _ (fun _ => eq_refl)).
  rewrite (on_ref_again (set_toDestination false) _ _ (fun _ => eq_refl)).
  rewrite (on_ref_again request_close _ _ request_close_again).
  rewrite stop_sources_empty.
  reflexivity.
Qed.
End LiveAssistantProperties.

(* ===================================================================== *)
(** * Further properties of src/types.ts and of the upload handlers       *)
(* ===================================================================== *)

Section UploadProperties.
Import Types.

Lemma blobToBase64_string (s : string) :
  blobToBase64 (Loaded (ResultString s)) =
    Js.Resolved (before_first_comma <$> after_first_comma s).
Proof.
  unfold blobToBase64, reader_events, dispatch, onloadend.
  cbn [fold_left Js.resolve]. now rewrite split_second.
Qed.

Lemma after_first_comma_app (p q : string) :
  has_comma p = false -> after_first_comma (p +:+ String "," q) = Some q.
Proof.
  induction p as [|c rest IH]; simpl; [reflexivity|].
  destruct (Ascii.eqb c ","); simpl; [discriminate|exact IH].
Qed.

Lemma has_comma_app (p q : string) :
  has_comma (p +:+ q) = has_comma p || has_comma q.
Proof.
  induction p as [|c rest IH]; simpl; [reflexivity|].
  now rewrite IH, orb_assoc.
Qed.

Lemma append_assoc (a b c : string) : (a +:+ b) +:+ c = a +:+ (b +:+ c).
Proof.
  induction a as [|x rest IH]; [reflexivity|].
  change (String x ((rest +:+ b) +:+ c) = String x (rest +:+ (b +:+ c))).
  now f_equal.
Qed.

(** The data URL of a payload, as [readAsDataURL] writes it. *)
Lemma data_url_split (mime payload : string) :
  "data:" +:+ mime +:+ ";base64," +:+ payload
  = ("data:" +:+ mime +:+ ";base64") +:+ String "," payload.
Proof.
  change (";base64," +:+ payload) with (";base64" +:+ String "," payload).
  now rewrite !append_assoc.
Qed.

(** X1.  The data URL [data:<mime>;base64,<payload>] of a blob whose type
    and payload hold no comma resolves with the payload: [blobToBase64]
    undoes the prefix that [readAsDataURL] puts in front. *)
Theorem blobToBase64_data_url (mime payload : string) :
  has_comma mime = false ->
  has_comma payload = false ->
  blobToBase64 (Loaded (ResultString ("data:" +:+ mime +:+ ";base64," +:+ payload)))
  = Js.Resolved (Some payload).
Proof.
  intros Hm Hp. rewrite blobToBase64_string, data_url_split.
  rewrite after_first_comma_app.
  - simpl. now rewrite before_first_comma_id.
  - rewrite !has_comma_app, Hm. reflexivity.
Qed.

Lemma blobToBase64_data_url_witness :
  blobToBase64 (Loaded (ResultString "data:image/png;base64,iVBORw0KGgo="))
  = Js.Resolved (Some "iVBORw0KGgo=").
Proof. exact (blobToBase64_data_url "image/png" "iVBORw0KGgo=" eq_refl eq_refl). Defined.

(** A string result that ends at its only comma, the data URL of an
    empty file, resolves with the empty string; one without a comma
    resolves with [undefined]. *)
Lemma blobToBase64_falsy (prefix : string) :
  has_comma prefix = false ->
  blobToBase64 (Loaded (ResultString (prefix +:+ ","))) = Js.Resolved (Some "")
  /\ blobToBase64 (Loaded (ResultString prefix)) = Js.Resolved None.
Proof.
  intros Hp. rewrite !blobToBase64_string. split.
  - now rewrite (after_first_comma_app prefix "" Hp).
  - assert (H : after_first_comma prefix = None).
    { induction prefix as [|c rest IH]; simpl in *; [reflexivity|].
      destruct (Ascii.eqb c ","); simpl in *; [discriminate|auto]. }
    now rewrite H.
Qed.

End UploadProperties.

(* ===================================================================== *)
(** * Further properties of the background replacement panel              *)
(* ===================================================================== *)

Section VintedStudioMore.
Import Types VintedStudio.

(** X2.  The loop over the response parts stops at the first part with
    inline data: its result is the PNG data URL of that part, every part
    before it having none; it is [None] exactly when no part has any. *)
Theorem first_inline_first (ps : list Part) :
  match first_inline ps with
  | Some url =>
      exists before p after data,
        ps = before ++ p :: after
        /\ Forall (fun q => inlineData q = None) before
        /\ inlineData p = Some data
        /\ url = "data:image/png;base64," +:+ Js.interpolate data
  | None => Forall (fun q => inlineData q = None) ps
  end.
Proof.
  induction ps as [|p rest IH]; simpl; [constructor|].
  destruct (inlineData p) as [data|] eqn:Hp.
  - exists [], p, rest, data. repeat split; [constructor|exact Hp].
  - destruct (first_inline rest) as [url|].
    + destruct IH as (before & q & after & data & -> & Hb & Hq & ->).
      exists (p :: before), q, after, data. repeat split; [|exact Hq].
      constructor; assumption.
    + constructor; assumption.
Qed.

(** [handleGenerate] is its two parts around the [await]. *)
Lemma handleGenerate_parts (e : Env) (s : State) :
  Js.truthy (originalImage s) = true -> Js.truthy (API_KEY e) = true ->
  fst (handleGenerate e s) = handleGenerate_end (outcome e) (handleGenerate_begin s).
Proof.
  intros Hi Hk. unfold handleGenerate, handleGenerate_end, handleGenerate_begin.
  rewrite Hi, Hk. simpl.
  destruct (outcome e) as [[ps|]|]; simpl; try reflexivity.
Qed.

(** X3.  A call of [handleGenerate] that passes its guard ends with
    [loading] false and leaves the photo, the prompt and the quality as
    they were.  The generated image afterwards is the first inline part
    of the response, and none when the response has no inline part or
    the request threw: an image generated earlier never stays.  One
    request is sent; only a thrown request raises an alert, one, with the
    fixed text. *)
Theorem handleGenerate_settles (e : Env) (s : State) :
  Js.truthy (originalImage s) = true ->
  Js.truthy (API_KEY e) = true ->
  loading (fst (handleGenerate e s)) = false
  /\ originalImage (fst (handleGenerate e s)) = originalImage s
  /\ prompt (fst (handleGenerate e s)) = prompt s
  /\ quality (fst (handleGenerate e s)) = quality s
  /\ generatedImage (fst (handleGenerate e s)) =
       match outcome e with
       | Returned (Some ps) => first_inline ps
       | _ => None
       end
  /\ snd (handleGenerate e s) =
       GenerateContent (request s (Js.interpolate (originalImage s))) ::
       match outcome e with
       | Returned _ => []
       | Threw => [ConsoleError; Alert failure_text]
       end.
Proof.
  intros Hi Hk. unfold handleGenerate. rewrite Hi, Hk. simpl.
  destruct (outcome e) as [[ps|]|]; simpl; repeat split; try reflexivity.
  all: destruct (first_inline ps); reflexivity.
Qed.

Lemma handleGenerate_settles_witness :
  loading (fst (handleGenerate Samples.studio_env Samples.studio_4K)) = false
  /\ generatedImage (fst (handleGenerate Samples.studio_env Samples.studio_4K)) = None.
Proof.
  destruct (handleGenerate_settles Samples.studio_env Samples.studio_4K eq_refl eq_refl)
    as (Hl & _ & _ & _ & Hg & _).
  split; [exact Hl|exact Hg].
Defined.

(** X4.  Upload, then generate.  After the upload of a file whose data
    URL is [data:<mime>;base64,<payload>], with no comma in the type and
    a payload that is not empty and holds no comma, the photo is the
    payload and the generated image is cleared; the request of a
    following [handleGenerate] carries that payload, always labelled
    [image/jpeg], whatever the type of the file. *)
Theorem upload_then_generate (mime payload : string) (e : Env) (s : State) :
  has_comma mime = false ->
  has_comma payload = false ->
  payload <> "" ->
  Js.truthy (API_KEY e) = true ->
  let s1 := handleFileUpload
              (Some (Loaded (ResultString ("data:" +:+ mime +:+ ";base64," +:+ payload)))) s in
  originalImage s1 = Some payload
  /\ generatedImage s1 = None
  /\ exists req rest,
       snd (handleGenerate e s1) = GenerateContent req :: rest
       /\ inlineData_data req = payload
       /\ inlineData_mimeType req = "image/jpeg".
Proof.
  intros Hm Hp Hne Hk s1. subst s1. unfold handleFileUpload.
  rewrite (blobToBase64_data_url mime payload Hm Hp). simpl.
  repeat split.
  unfold handleGenerate. simpl.
  destruct payload as [|c rest]; [congruence|]. simpl. rewrite Hk. simpl.
  destruct (outcome e); eexists _, _; repeat split; reflexivity.
Qed.

Lemma upload_then_generate_witness :
  exists req rest,
    snd (handleGenerate Samples.studio_env
           (handleFileUpload
              (Some (Loaded (ResultString "data:image/png;base64,iVBORw0KGgo=")))
              Samples.studio_empty))
    = GenerateContent req :: rest
    /\ inlineData_data req = "iVBORw0KGgo="
    /\ inlineData_mimeType req = "image/jpeg".
Proof.
  exact (proj2 (proj2 (upload_then_generate "image/png" "iVBORw0KGgo="
                         Samples.studio_env Samples.studio_empty
                         eq_refl eq_refl
                         (fun H => eq_ind "iVBORw0KGgo="
                            (fun t => match t with EmptyString => False | _ => True end)
                            I "" H)
                         eq_refl))).
Defined.

(** X5.  What an upload leaves alone.  With no file chosen, with a read
    that failed, and with a result that is not a string, the state is the
    one before.  The data URL of an empty file stores the empty string as
    the photo, and a result without a comma stores [undefined]: the
    generate button is then disabled and [handleGenerate] does nothing. *)
Theorem handleFileUpload_edges (e : Env) (s : State) (prefix : string) :
  has_comma prefix = false ->
  handleFileUpload None s = s
  /\ (forall ev, handleFileUpload (Some (Failed ev)) s = s)
  /\ (forall bytes, handleFileUpload (Some (Loaded (ResultArrayBuffer bytes))) s = s)
  /\ handleFileUpload (Some (Loaded ResultNull)) s = s
  /\ (forall result, result = prefix +:+ "," \/ result = prefix ->
        let s1 := handleFileUpload (Some (Loaded (ResultString result))) s in
        Js.truthy (originalImage s1) = false
        /\ generatedImage s1 = None
        /\ generate_disabled s1 = true
        /\ handleGenerate e s1 = (s1, [])).
Proof.
  intros Hp. repeat split; try reflexivity.
  all: destruct (blobToBase64_falsy prefix Hp) as [Hempty Hnone].
  all: destruct H as [-> | ->]; unfold handleFileUpload;
    rewrite ?Hempty, ?Hnone; reflexivity.
Qed.

Lemma handleFileUpload_edges_witness :
  generate_disabled
    (handleFileUpload
       (Some (Loaded (ResultString "data:application/octet-stream;base64,")))
       Samples.studio_4K) = true.
Proof.
  destruct (handleFileUpload_edges Samples.studio_env Samples.studio_4K
              "data:application/octet-stream;base64" eq_refl)
    as (_ & _ & _ & _ & H).
  exact (proj1 (proj2 (proj2 (H _ (or_introl eq_refl))))).
Defined.

(** X6.  A response that comes back after the photo was removed, or
    after another file was uploaded, still sets the generated image: the
    remove button and the file input stay usable while the request is
    under way, and the second part of [handleGenerate] does not look at
    the photo again. *)
Theorem late_response_is_shown (s : State) (ps : list Part) (url : string)
    (file : option ReadOutcome) :
  Js.truthy (originalImage s) = true ->
  first_inline ps = Some url ->
  let removed := handleGenerate_end (Returned (Some ps)) (removePhoto (handleGenerate_begin s)) in
  let replaced :=
    handleGenerate_end (Returned (Some ps)) (handleFileUpload file (handleGenerate_begin s)) in
  originalImage removed = None
  /\ generatedImage removed = Some url
  /\ generatedImage replaced = Some url
  /\ originalImage replaced = originalImage (handleFileUpload file s).
Proof.
  intros _ Hurl removed replaced. subst removed replaced.
  unfold handleGenerate_end. rewrite Hurl. simpl. repeat split.
  unfold handleFileUpload. destruct file as [o|]; [|reflexivity].
  destruct (blobToBase64 o); reflexivity.
Qed.

Lemma late_response_is_shown_witness :
  originalImage
    (handleGenerate_end (Returned (Some [{| inlineData := Some (Some "QUJD") |}]))
       (removePhoto (handleGenerate_begin Samples.studio_4K))) = None
  /\ generatedImage
       (handleGenerate_end (Returned (Some [{| inlineData := Some (Some "QUJD") |}]))
          (removePhoto (handleGenerate_begin Samples.studio_4K)))
     = Some "data:image/png;base64,QUJD".
Proof.
  destruct (late_response_is_shown Samples.studio_4K
              [{| inlineData := Some (Some "QUJD") |}] "data:image/png;base64,QUJD"
              None eq_refl eq_refl) as (H1 & H2 & _).
  split; assumption.
Defined.

End VintedStudioMore.

(* ===================================================================== *)
(** * Properties of the image generator                                   *)
(* ===================================================================== *)

Section ImageGeneratorProperties.
Import Types ImageGenerator.

(** X7.  With an empty prompt [generate] changes nothing and sends
    nothing.  Otherwise it ends with [loading] false and leaves the
    prompt, the aspect ratio and the size as they were; the generated
    image afterwards is the first inline part of the response and none in
    every other case, so an image generated earlier never stays. *)
Theorem generate_settles (o : Outcome) (s : State) :
  (prompt s = "" -> generate o s = (s, []))
  /\ (prompt s <> "" ->
      loading (fst (generate o s)) = false
      /\ prompt (fst (generate o s)) = prompt s
      /\ aspectRatio (fst (generate o s)) = aspectRatio s
      /\ size (fst (generate o s)) = size s
      /\ generatedImage (fst (generate o s)) =
           match o with
           | Returned (Some ps) => VintedStudio.first_inline ps
           | _ => None
           end).
Proof.
  unfold generate. split.
  - intros ->. reflexivity.
  - intros Hne. destruct (prompt s) as [|c rest] eqn:Hp; [congruence|]. simpl.
    destruct o as [m|[ps|]|m]; simpl; rewrite ?Hp; repeat split; try reflexivity.
    all: destruct (VintedStudio.first_inline ps); simpl; rewrite ?Hp; reflexivity.
Qed.

Lemma generate_settles_witness :
  generatedImage (fst (generate (Threw (Some "quota")) Samples.art_state)) = None
  /\ loading (fst (generate (Threw (Some "quota")) Samples.art_state)) = false.
Proof.
  destruct (proj2 (generate_settles (Threw (Some "quota")) Samples.art_state)
              (fun H => eq_ind (prompt Samples.art_state)
                 (fun t => match t with EmptyString => False | _ => True end) I "" H))
    as (Hl & _ & _ & _ & Hg).
  split; [exact Hg|exact Hl].
Defined.

(** X8.  What [generate] sends and reports, for a prompt that is not
    empty.  A request, when one is sent, goes to
    [gemini-3-pro-image-preview] with the prompt as its text and the
    selected aspect ratio and size as its image configuration.  A
    returned request raises no alert; a thrown one, and a client that
    could not be made, raise one alert, [Error: ] followed by the
    message of the exception. *)
Theorem generate_reports (o : Outcome) (s : State) :
  prompt s <> "" ->
  (forall r, In (GenerateContent r) (snd (generate o s)) ->
     model r = "gemini-3-pro-image-preview"
     /\ text r = prompt s
     /\ imageConfig_aspectRatio r = aspectRatio s
     /\ imageConfig_imageSize r = size s)
  /\ snd (generate o s) =
       match o with
       | NoClient message =>
           [ConsoleError; Alert ("Error: " +:+ Js.interpolate message)]
       | Returned _ => [GenerateContent (request s)]
       | Threw message =>
           [GenerateContent (request s); ConsoleError;
            Alert ("Error: " +:+ Js.interpolate message)]
       end.
Proof.
  intros Hne. unfold generate.
  destruct (prompt s) as [|c rest] eqn:Hp; [congruence|]. simpl.
  assert (Hr : forall r, GenerateContent r = GenerateContent (request s) ->
             model r = "gemini-3-pro-image-preview"
             /\ text r = String c rest
             /\ imageConfig_aspectRatio r = aspectRatio s
             /\ imageConfig_imageSize r = size s).
  { intros r Heq. injection Heq as ->. unfold request. simpl. now rewrite Hp. }
  destruct o as [m|ps|m]; simpl; (split; [|reflexivity]); intros r Hin;
    unfold catch in Hin; simpl in Hin;
    repeat (destruct Hin as [Hin|Hin]; try discriminate; try (symmetry in Hin; auto));
    contradiction.
Qed.

Lemma generate_reports_witness :
  snd (generate (Threw None) Samples.art_state) =
    [GenerateContent (request Samples.art_state); ConsoleError; Alert "Error: undefined"].
Proof.
  exact (proj2 (generate_reports (Threw None) Samples.art_state
                  (fun H => eq_ind (prompt Samples.art_state)
                     (fun t => match t with EmptyString => False | _ => True end) I "" H))).
Defined.

End ImageGeneratorProperties.

(* ===================================================================== *)
(** * Further properties of the chat panel                                *)
(* ===================================================================== *)

Section SmartChatMore.
Import Types SmartChat.

(** X9.  The request of a message.  Its text is the text of the message
    and its image the first image of the message.  A message with an
    image never goes to the lite model: fast mode then takes
    [gemini-3-pro-preview], and the other modes keep their model.  Only
    search and maps send a tool, only maps sends a location, and only
    think sends a thinking budget. *)
Theorem request_of_mode (m : Mode) (msg : ChatMessage) :
  req_text (request m msg) = text msg
  /\ req_image (request m msg) = (images msg ≫= fun imgs => imgs !! 0%nat)
  /\ (images msg <> None -> req_model (request m msg) <> "gemini-2.5-flash-lite-latest")
  /\ (images msg <> None -> m = fast -> req_model (request m msg) = "gemini-3-pro-preview")
  /\ (images msg = None -> m = fast ->
        req_model (request m msg) = "gemini-2.5-flash-lite-latest")
  /\ (is_Some (req_tools (request m msg)) <-> m = search \/ m = maps)
  /\ (is_Some (req_latLng (request m msg)) <-> m = maps)
  /\ (is_Some (req_thinkingBudget (request m msg)) <-> m = think).
Proof.
  unfold request. repeat split; simpl.
  - destruct (images msg) as [[|i rest]|]; reflexivity.
  - intros Hi. destruct (images msg); [|congruence]. destruct m; discriminate.
  - intros Hi ->. destruct (images msg); [reflexivity|congruence].
  - intros -> ->. reflexivity.
  - destruct m; simpl; intros [x Hx]; try discriminate; auto.
  - intros [-> | ->]; simpl; eauto.
  - destruct m; simpl; intros [x Hx]; try discriminate; auto.
  - intros ->. simpl. eauto.
  - destruct m; simpl; intros [x Hx]; try discriminate; auto.
  - intros ->. simpl. eauto.
Qed.

Lemma request_of_mode_witness :
  req_model (request fast (userMsg Samples.chat_env
                             (setUploadedImage (Some "aGk=") Samples.chat_typed)))
  = "gemini-3-pro-preview".
Proof.
  refine (proj1 (proj2 (proj2 (proj2 (request_of_mode fast _)))) _ eq_refl).
  discriminate.
Defined.

(** X10.  Upload, then send.  After the upload of a file whose data URL
    is [data:<mime>;base64,<payload>] (no comma in the type, a payload
    that is not empty and holds no comma), a call of [sendMessage] with no
    request under way passes the guard whatever the text field holds; the
    user message carries the payload as its one image, the request sends
    it, and afterwards the text field is empty and the upload cleared. *)
Theorem upload_then_send (mime payload : string) (e : Env) (s : State) :
  has_comma mime = false ->
  has_comma payload = false ->
  payload <> "" ->
  isLoading s = false ->
  let s1 := handleImageUpload
              (Some (Loaded (ResultString ("data:" +:+ mime +:+ ";base64," +:+ payload)))) s in
  guard s1 = false
  /\ images (userMsg e s1) = Some [payload]
  /\ req_image (request (mode s1) (userMsg e s1)) = Some payload
  /\ input (sendMessage e s1) = ""
  /\ uploadedImage (sendMessage e s1) = None.
Proof.
  intros Hm Hp Hne Hl s1. subst s1. unfold handleImageUpload.
  rewrite (blobToBase64_data_url mime payload Hm Hp).
  destruct payload as [|c rest]; [congruence|].
  assert (Hg : guard (setUploadedImage (Some (String c rest)) s) = false).
  { unfold guard. simpl. rewrite Hl. now rewrite andb_false_r. }
  split; [exact Hg|]. unfold sendMessage. rewrite Hg. repeat split.
Qed.

Lemma upload_then_send_witness :
  images (userMsg Samples.chat_env
            (handleImageUpload
               (Some (Loaded (ResultString "data:image/png;base64,iVBORw0KGgo=")))
               Samples.chat_blank))
  = Some ["iVBORw0KGgo="].
Proof.
  exact (proj1 (proj2 (upload_then_send "image/png" "iVBORw0KGgo=" Samples.chat_env
                         Samples.chat_blank eq_refl eq_refl
                         (fun H => eq_ind "iVBORw0KGgo="
                            (fun t => match t with EmptyString => False | _ => True end)
                            I "" H)
                         eq_refl))).
Defined.

(** ** Runs of the panel *)

Lemma alternates_snoc (ms : list ChatMessage) (m : ChatMessage) :
  forall first,
    alternates first ms = true ->
    role m = (if Nat.even (length ms) then first else other first) ->
    alternates first (ms ++ [m]) = true.
Proof.
  induction ms as [|x rest IH]; intros first Hall Hrole; simpl in *.
  - rewrite Hrole. destruct first; reflexivity.
  - destruct first, (role x); try discriminate.
    + apply IH; [exact Hall|]. rewrite Hrole.
      destruct (length rest) as [|n]; [reflexivity|].
      rewrite Nat.even_succ, <- Nat.negb_even. now destruct (Nat.even n).
    + apply IH; [exact Hall|]. rewrite Hrole.
      destruct (length rest) as [|n]; [reflexivity|].
      rewrite Nat.even_succ, <- Nat.negb_even. now destruct (Nat.even n).
Qed.

Lemma handleImageUpload_frame (file : option ReadOutcome) (s : State) :
  messages (handleImageUpload file s) = messages s
  /\ isLoading (handleImageUpload file s) = isLoading s
  /\ input (handleImageUpload file s) = input s
  /\ mode (handleImageUpload file s) = mode s.
Proof.
  unfold handleImageUpload. destruct file as [o|]; [|repeat split].
  destruct (blobToBase64 o); repeat split.
Qed.

Lemma step_chat_invariant (ev : Event) (p p' : Panel) :
  step ev p = Some p' -> chat_invariant p -> chat_invariant p'.
Proof.
  intros Hstep (Halt & Heven & Hfly). destruct ev; simpl in Hstep.
  - injection Hstep as <-. repeat split; assumption.
  - injection Hstep as <-.
    destruct (handleImageUpload_frame file (view p)) as (Hm & Hl & _).
    unfold chat_invariant. simpl. rewrite Hm, Hl. repeat split; assumption.
  - destruct (Js.truthy _); [|discriminate]. injection Hstep as <-.
    repeat split; assumption.
  - injection Hstep as <-. repeat split; assumption.
  - destruct (guard (view p)) eqn:Hg.
    + injection Hstep as <-. repeat split; assumption.
    + injection Hstep as <-.
      assert (Hl : isLoading (view p) = false).
      { unfold guard in Hg. apply orb_false_iff in Hg. tauto. }
      rewrite Hl in Heven, Hfly. unfold chat_invariant. simpl.
      rewrite !length_app. simpl. repeat split.
      * apply alternates_snoc; [exact Halt|]. now rewrite Heven.
      * rewrite Nat.add_1_r, Nat.even_succ, <- Nat.negb_even. now rewrite Heven.
      * lia.
  - destruct (inflight p !! k) as [e|] eqn:Hk; [|discriminate]. injection Hstep as <-.
    assert (Hl : isLoading (view p) = true).
    { destruct (isLoading (view p)); [reflexivity|].
      apply lookup_lt_Some in Hk. lia. }
    rewrite Hl in Heven, Hfly. unfold chat_invariant. simpl.
    rewrite !length_app. simpl. repeat split.
    + apply alternates_snoc; [exact Halt|]. rewrite Heven. simpl.
      destruct (outcome e); reflexivity.
    + rewrite Nat.add_1_r, Nat.even_succ, <- Nat.negb_even. now rewrite Heven.
    + rewrite length_delete by eauto. lia.
Qed.

Lemma run_chat_invariant (trace : list Event) :
  forall p p', run trace p = Some p' -> chat_invariant p -> chat_invariant p'.
Proof.
  induction trace as [|ev rest IH]; intros p p' Hrun Hinv; simpl in Hrun.
  - now injection Hrun as <-.
  - destruct (step ev p) as [p1|] eqn:Hstep; [|discriminate].
    exact (IH p1 p' Hrun (step_chat_invariant ev p p1 Hstep Hinv)).
Qed.

(** X11.  In every state that the panel reaches from its first render,
    at most one request is under way, and one is exactly while
    [isLoading] is true: a call of [sendMessage] during a request, by the
    button or by the Enter key, starts no second one. *)
Theorem one_request_at_a_time (trace : list Event) (p : Panel) :
  run trace start = Some p ->
  (length (inflight p) <= 1)%nat
  /\ (isLoading (view p) = true <-> inflight p <> [])
  /\ (forall e p', step (Send e) p = Some p' -> inflight p <> [] -> p' = p).
Proof.
  intros Hrun.
  destruct (run_chat_invariant trace start p Hrun) as (_ & _ & Hfly).
  { repeat split. }
  repeat split.
  - destruct (isLoading (view p)); lia.
  - intros Hl Hnil. rewrite Hl, Hnil in Hfly. discriminate.
  - intros Hnil. destruct (isLoading (view p)); [reflexivity|].
    destruct (inflight p); [congruence|discriminate].
  - intros e p' Hstep Hnil. simpl in Hstep.
    assert (Hl : isLoading (view p) = true).
    { destruct (isLoading (view p)); [reflexivity|].
      destruct (inflight p); [congruence|discriminate]. }
    unfold guard in Hstep. rewrite Hl, orb_true_r in Hstep. now injection Hstep as <-.
Qed.

Lemma one_request_at_a_time_witness :
  exists p,
    run [Typed "Hi"; Send Samples.chat_env; Typed "again"; Send Samples.chat_env] start
    = Some p
    /\ (length (inflight p) <= 1)%nat
    /\ length (messages (view p)) = 1%nat.
Proof.
  eexists. split; [reflexivity|].
  split; [|reflexivity].
  exact (proj1 (one_request_at_a_time
                  [Typed "Hi"; Send Samples.chat_env; Typed "again"; Send Samples.chat_env]
                  _ eq_refl)).
Defined.

(** X12.  In every state that the panel reaches from its first render,
    the transcript alternates, user first; while no request is under way
    it has an even number of messages, every user message being followed
    by its one reply, and while one is under way the last message is the
    user's, still without a reply. *)
Theorem transcript_alternates (trace : list Event) (p : Panel) :
  run trace start = Some p ->
  alternates user (messages (view p)) = true
  /\ (isLoading (view p) = false -> Nat.even (length (messages (view p))) = true)
  /\ (isLoading (view p) = true ->
        exists m, last (messages (view p)) = Some m /\ role m = user).
Proof.
  intros Hrun.
  destruct (run_chat_invariant trace start p Hrun) as (Halt & Heven & _).
  { repeat split. }
  split; [exact Halt|]. split.
  - intros Hl. now rewrite Heven, Hl.
  - intros Hl. rewrite Hl in Heven. simpl in Heven.
    destruct (messages (view p)) as [|x rest] eqn:Hm using rev_ind; [discriminate|].
    clear IHrest. exists x. split; [apply last_snoc|].
    destruct (role x) eqn:Hr; [reflexivity|exfalso].
    rewrite length_app in Heven. simpl in Heven.
    rewrite Nat.add_1_r, Nat.even_succ, <- Nat.negb_even in Heven.
    apply negb_false_iff in Heven.
    assert (Hgen : forall ms first, alternates first (ms ++ [x]) = true ->
              role x = if Nat.even (length ms) then first else other first).
    { clear. induction ms as [|y ms IH]; intros first H; simpl in *.
      - destruct first, (role x); try discriminate; reflexivity.
      - destruct first, (role y); try discriminate.
        + rewrite (IH _ H). destruct (length ms) as [|n]; [reflexivity|].
          rewrite Nat.even_succ, <- Nat.negb_even. now destruct (Nat.even n).
        + rewrite (IH _ H). destruct (length ms) as [|n]; [reflexivity|].
          rewrite Nat.even_succ, <- Nat.negb_even. now destruct (Nat.even n). }
    specialize (Hgen rest user Halt). rewrite Heven in Hgen. congruence.
Qed.

Lemma transcript_alternates_witness :
  exists p,
    run [Typed "Hi"; Send Samples.chat_env; Answer 0] start = Some p
    /\ alternates user (messages (view p)) = true
    /\ length (messages (view p)) = 2%nat.
Proof.
  eexists. split; [reflexivity|].
  split; [|reflexivity].
  exact (proj1 (transcript_alternates [Typed "Hi"; Send Samples.chat_env; Answer 0] _ eq_refl)).
Defined.

(** X13.  Along every run of the panel, from any state, the transcript
    only grows at its end: the messages before the run are a prefix of
    the messages after it, unchanged. *)
Theorem transcript_grows (trace : list Event) :
  forall p p',
    run trace p = Some p' ->
    exists added, messages (view p') = messages (view p) ++ added.
Proof.
  induction trace as [|ev rest IH]; intros p p' Hrun; simpl in Hrun.
  - injection Hrun as <-. exists []. now rewrite app_nil_r.
  - destruct (step ev p) as [p1|] eqn:Hstep; [|discriminate].
    destruct (IH p1 p' Hrun) as (added & Hadd).
    assert (H1 : exists one, messages (view p1) = messages (view p) ++ one).
    { destruct ev; simpl in Hstep.
      - injection Hstep as <-. exists []. simpl. now rewrite app_nil_r.
      - injection Hstep as <-. exists []. simpl.
        rewrite (proj1 (handleImageUpload_frame file (view p))). now rewrite app_nil_r.
      - destruct (Js.truthy _); [|discriminate]. injection Hstep as <-.
        exists []. simpl. now rewrite app_nil_r.
      - injection Hstep as <-. exists []. simpl. now rewrite app_nil_r.
      - destruct (guard (view p)); injection Hstep as <-.
        + exists []. now rewrite app_nil_r.
        + eexists. reflexivity.
      - destruct (inflight p !! k) as [e|]; [|discriminate]. injection Hstep as <-.
        eexists. reflexivity. }
    destruct H1 as (one & Hone). exists (one ++ added).
    now rewrite Hadd, Hone, app_assoc.
Qed.

Lemma transcript_grows_witness :
  exists added,
    messages (view {| view := sendMessage_end Samples.chat_env
                                (sendMessage_begin Samples.chat_env Samples.chat_typed);
                      inflight := [] |})
    = messages (view {| view := Samples.chat_typed; inflight := [] |}) ++ added.
Proof.
  exact (transcript_grows [Send Samples.chat_env; Answer 0]
           {| view := Samples.chat_typed; inflight := [] |} _ eq_refl).
Defined.

End SmartChatMore.

(* ===================================================================== *)
(** * Further properties of the video panel                               *)
(* ===================================================================== *)

Section VeoStudioMore.
Import VeoStudio.







(** X14.  The loop has no bound of its own.  While every refetch
    answers an operation that is not done, and none throws, the loop is
    not left, whatever the fuel: [generateVideo] waits and refetches
    without an end, with no timeout and no maximum number of attempts. *)
Theorem generateVideo_never_gives_up (e : Env) (s : State) (operation0 : Operation) :
  prompt s <> "" ->
  fst (checkApiKey e) = true ->
  generateVideos e = Returned operation0 ->
  is_done operation0 = false ->
  (forall k, exists operation,
     getVideosOperation e k = Returned operation /\ is_done operation = false) ->
  forall fuel,
    generateVideo fuel e s = None
    /\ forall k s0 log, poll fuel e k operation0 s0 log = None.
Proof.
  intros Hp Hkey Hg Hd Hall fuel.
  assert (Hpoll : forall fuel k operation s0 log,
            is_done operation = false -> poll fuel e k operation s0 log = None).
  { clear fuel. induction fuel as [|fuel IH]; intros k operation s0 log Hop; simpl;
      [reflexivity|].
    rewrite Hop. destruct (Hall k) as (operation' & -> & Hd'). now apply IH. }
  split; [|intros; now apply Hpoll].
  unfold generateVideo. destruct (prompt s) as [|c rest]; [congruence|]. simpl.
  destruct (checkApiKey e) as [hasKey log0]. simpl in Hkey. subst hasKey. simpl.
  now rewrite Hg, Hpoll.
Qed.

Lemma generateVideo_never_gives_up_witness :
  generateVideo 1000 Samples.video_stuck_env Samples.video_state = None.
Proof.
  refine (proj1 (generateVideo_never_gives_up Samples.video_stuck_env Samples.video_state
                   Samples.video_running _ eq_refl eq_refl eq_refl _ 1000%nat)).
  - discriminate.
  - intros k. exists Samples.video_running. split; reflexivity.
Defined.



(** X16.  The two checks.  With an empty prompt [generateVideo] returns
    at once and does nothing at all.  When [checkApiKey] answers false,
    the state is unchanged as well and no generation is asked for, no
    operation refetched and nothing fetched; without the AI Studio
    environment the one alert says so. *)
Theorem generateVideo_checks (fuel : nat) (e : Env) (s : State) :
  (prompt s = "" -> generateVideo fuel e s = Some (s, []))
  /\ (prompt s <> "" -> fst (checkApiKey e) = false ->
      generateVideo fuel e s = Some (s, snd (checkApiKey e))
      /\ count is_generate (snd (checkApiKey e)) = 0%nat
      /\ count is_poll (snd (checkApiKey e)) = 0%nat
      /\ count is_fetch (snd (checkApiKey e)) = 0%nat
      /\ (aistudio e = None ->
          snd (checkApiKey e) = [Alert "AI Studio environment not detected."])).
Proof.
  unfold generateVideo. split.
  - intros ->. reflexivity.
  - intros Hp Hkey. destruct (prompt s) as [|c rest]; [congruence|]. simpl.
    unfold checkApiKey in *.
    destruct (aistudio e) as [a|]; simpl in *.
    + destruct (hasSelectedApiKey a); simpl in *; [discriminate|].
      destruct (openSelectKey_returns a); simpl in *; [discriminate|].
      repeat split. discriminate.
    + repeat split.
Qed.

Lemma generateVideo_checks_witness :
  generateVideo 0 Samples.video_unhosted_env Samples.video_state
  = Some (Samples.video_state, [Alert "AI Studio environment not detected."]).
Proof.
  refine (proj1 (proj2 (generateVideo_checks 0 Samples.video_unhosted_env
                          Samples.video_state) _ eq_refl)).
  discriminate.
Defined.

End VeoStudioMore.
